(** * Reference grouped GEMM and its comparison harness

    A shallow embedding of
    [torchtitan/experiments/kernels/triton_mg_group_gemm/fast_debug.py]:
    the per-group reference forward pass, the autograd-based reference
    backward pass, the tolerance comparison with its diagnostics and the
    multi-configuration sweep.

    Tensors are two-dimensional, row-major lists of rows that carry their
    column count (a tensor with no rows still has a column extent).  The
    element type is kept abstract behind the [Scalar] interface, so every
    statement that needs no algebraic law holds for any rounding
    behaviour of the element arithmetic.  The backward pass adds
    zero-padded gradients, so its statements ask for [RoundingLaws],
    which rounded sums and products keep; only the lemmas on exact
    arithmetic, which re-associate sums, ask for [ScalarLaws]. *)

From Stdlib Require Import String List NArith ZArith Lia Bool QArith Qabs.
From Stdlib Require Import DecimalString.
From Stdlib Require Import Qcanon Qcabs.
Import ListNotations.
Close Scope Qc_scope.
Close Scope Q_scope.
Open Scope nat_scope.

(** ** Element arithmetic *)

Class Scalar (T : Type) : Type := {
  zero : T;
  add : T -> T -> T;
  mul : T -> T -> T
}.

(** Laws of exact (unrounded) element arithmetic. *)
Class ScalarLaws (T : Type) `{Scalar T} : Prop := {
  add_zero_l : forall a : T, add zero a = a;
  add_zero_r : forall a : T, add a zero = a;
  add_commutes : forall a b : T, add a b = add b a;
  add_associates : forall a b c : T, add a (add b c) = add (add a b) c;
  mul_commutes : forall a b : T, mul a b = mul b a
}.

(** Laws that rounded arithmetic keeps: adding zero changes nothing and
    products commute.  Nothing is assumed on the order of additions, so
    sums may round.  Floating-point numbers satisfy these laws once the
    two zeros are identified. *)
Class RoundingLaws (T : Type) `{Scalar T} : Prop := {
  zero_plus : forall a : T, add zero a = a;
  plus_zero : forall a : T, add a zero = a;
  times_commutes : forall a b : T, mul a b = mul b a
}.

#[export] Instance ScalarLaws_rounding {T : Type} `{ScalarLaws T} : RoundingLaws T.
Proof.
  constructor; [apply add_zero_l|apply add_zero_r|apply mul_commutes].
Defined.

#[export] Instance Scalar_Z : Scalar Z :=
  {| zero := 0%Z; add := Z.add; mul := Z.mul |}.

#[export] Instance ScalarLaws_Z : ScalarLaws Z.
Proof.
  constructor; simpl; intros; lia.
Defined.

(** ** Exceptions and fallible results *)

(** Instances of Python's [Exception] class, the ones [except Exception]
    handles; [OtherError] stands for any class not named here. *)
Inductive exception : Type :=
| RuntimeError (msg : string)
| IndexError (msg : string)
| ValueError (msg : string)
| ZeroDivisionError
| OtherError (class_name msg : string).

Inductive outcome (A : Type) : Type :=
| Ok (a : A)
| Raise (e : exception).

Arguments Ok {A} a.
Arguments Raise {A} e.

Definition bind {A B : Type} (m : outcome A) (k : A -> outcome B) : outcome B :=
  match m with
  | Ok a => k a
  | Raise e => Raise e
  end.

Declare Scope outcome_scope.
Delimit Scope outcome_scope with outcome.
Notation "'do' x <- m ; k" := (bind m (fun x => k))
  (at level 10, x pattern, m at level 100, k at level 200) : outcome_scope.
Open Scope outcome_scope.

(** ** Tensors *)

Record tensor (T : Type) : Type := mkTensor {
  ncols : nat;
  rows : list (list T)
}.

Arguments mkTensor {T} ncols rows.
Arguments ncols {T} t.
Arguments rows {T} t.

Definition zip_rows {A B C : Type} (f : A -> B -> C)
           (ra : list (list A)) (rb : list (list B)) : list (list C) :=
  map (fun p => map (fun q => f (fst q) (snd q)) (combine (fst p) (snd p)))
      (combine ra rb).

(** Combination of two tensors of one shape, element by element. *)
Definition pointwise {A B C : Type} (f : A -> B -> C) (a : tensor A) (b : tensor B)
  : tensor C :=
  mkTensor (ncols a) (zip_rows f (rows a) (rows b)).

Definition map_tensor {A B : Type} (f : A -> B) (a : tensor A) : tensor B :=
  mkTensor (ncols a) (map (map f) (rows a)).

(** The elements in row-major order. *)
Definition flat {A : Type} (a : tensor A) : list A := concat (rows a).

Section Tensors.
Context {T : Type} `{Scalar T}.

Definition nrows (t : tensor T) : nat := length (rows t).

(** [t.shape] *)
Definition shape (t : tensor T) : nat * nat := (nrows t, ncols t).

(** [t.numel()] *)
Definition numel (t : tensor T) : nat := nrows t * ncols t.

Definition well_formed (t : tensor T) : Prop :=
  Forall (fun r => length r = ncols t) (rows t).

Definition has_shape (t : tensor T) (m k : nat) : Prop :=
  nrows t = m /\ ncols t = k /\ well_formed t.

(** [torch.zeros((m, n))] *)
Definition zeros (m n : nat) : tensor T :=
  mkTensor n (repeat (repeat zero n) m).

(** Python's normalisation of one slice bound against a length: a
    negative bound counts from the end, and every bound is clamped. *)
Definition slice_bound (len : nat) (i : Z) : nat :=
  if (i <? 0)%Z then Z.to_nat (Z.max (i + Z.of_nat len) 0)
  else Nat.min (Z.to_nat i) len.

(** Rows [lo, hi) of a list; empty when [hi <= lo]. *)
Definition row_range {A : Type} (lo hi : nat) (l : list A) : list A :=
  firstn (hi - lo) (skipn lo l).

(** [t[start:stop]] *)
Definition slice (t : tensor T) (start stop : Z) : tensor T :=
  let lo := slice_bound (nrows t) start in
  let hi := slice_bound (nrows t) stop in
  mkTensor (ncols t) (row_range lo hi (rows t)).

(** [t[start:stop] = src].  The source must have the shape of the
    selected rows (expansion of singleton extents is not needed by any
    caller: source and selection always have equal shapes). *)
Definition slice_assign (t : tensor T) (start stop : Z) (src : tensor T)
  : outcome (tensor T) :=
  let lo := slice_bound (nrows t) start in
  let hi := slice_bound (nrows t) stop in
  if (nrows src =? hi - lo) && (ncols src =? ncols t) then
    Ok (mkTensor (ncols t)
          (firstn lo (rows t) ++ rows src ++ skipn (Nat.max lo hi) (rows t)))
  else
    Raise (RuntimeError "The expanded size of the tensor must match the existing size").

(** Column [j] of a tensor. *)
Definition column (j : nat) (t : tensor T) : list T :=
  map (fun r => nth j r zero) (rows t).

(** [t.T] *)
Definition transpose (t : tensor T) : tensor T :=
  mkTensor (nrows t) (map (fun j => column j t) (seq 0 (ncols t))).

Definition dot (u v : list T) : T :=
  fold_left add (map (fun p => mul (fst p) (snd p)) (combine u v)) zero.

(** The product of two tensors whose inner extents agree. *)
Definition mm (a b : tensor T) : tensor T :=
  mkTensor (ncols b)
    (map (fun r => map (fun j => dot r (column j b)) (seq 0 (ncols b)))
         (rows a)).

(** The decimal numeral of a natural number, as Python formats it. *)
Definition decimal (n : nat) : string :=
  NilEmpty.string_of_uint (Nat.to_uint n).

(** The text of the error raised for operands whose inner extents
    disagree; it names the two shapes. *)
Definition shapes_cannot_be_multiplied (a b : tensor T) : string :=
  String.append "mat1 and mat2 shapes cannot be multiplied ("
    (String.append (decimal (nrows a))
    (String.append "x"
    (String.append (decimal (ncols a))
    (String.append " and "
    (String.append (decimal (nrows b))
    (String.append "x"
    (String.append (decimal (ncols b)) ")"))))))).

(** [torch.matmul(a, b)] on two-dimensional operands. *)
Definition matmul (a b : tensor T) : outcome (tensor T) :=
  if ncols a =? nrows b then Ok (mm a b)
  else Raise (RuntimeError (shapes_cannot_be_multiplied a b)).

(** Element-wise sum of two tensors of one shape. *)
Definition tensor_add (a b : tensor T) : tensor T := pointwise add a b.

(** ** The reference forward pass *)

(** What autograd records for one executed group: the slice bounds and
    the operands saved by the matrix product. *)
Record group_node : Type := mkNode {
  node_start : Z;
  node_end : Z;
  saved_x_g : tensor T;
  saved_wT : tensor T
}.

(** The body of [for g in range(len(m_sizes))], threading [m_start],
    [result] and the recorded graph. *)
Fixpoint forward_loop (x w : tensor T) (m_sizes : list Z) (m_start : Z)
         (result : tensor T) (tape : list group_node)
  : outcome (tensor T * list group_node) :=
  match m_sizes with
  | [] => Ok (result, tape)
  | m_size :: rest =>
      if (0 <? m_size)%Z then
        let m_end := (m_start + m_size)%Z in
        let x_g := slice x m_start m_end in
        do y_g <- matmul x_g (transpose w);
        do result' <- slice_assign result m_start m_end y_g;
        forward_loop x w rest m_end result'
          (tape ++ [mkNode m_start m_end x_g (transpose w)])
      else
        forward_loop x w rest m_start result tape
  end.

Definition forward_traced (x w : tensor T) (m_sizes : list Z)
  : outcome (tensor T * list group_node) :=
  forward_loop x w m_sizes 0%Z (zeros (nrows x) (nrows w)) [].

Definition compute_reference_forward (x w : tensor T) (m_sizes : list Z)
  : outcome (tensor T) :=
  do rt <- forward_traced x w m_sizes;
  Ok (fst rt).

(** ** The reference backward pass *)

Definition shape_eqb (a b : tensor T) : bool :=
  (nrows a =? nrows b) && (ncols a =? ncols b).

(** Gradients while the graph is walked: the gradient still flowing
    into [result], and what has been accumulated for the two leaves. *)
Record grad_state : Type := mkGrads {
  flowing : tensor T;
  x_grad : tensor T;
  w_grad : tensor T
}.

(** The backward functions of the nodes one group recorded.  The slice
    copy hands its rows of the flowing gradient to the product and
    clears them for the writes recorded before it; the product yields
    [grad @ mat2.T] and [mat1.T @ grad]; the slice of [x] pads its
    gradient with zeros to the shape of [x]; the transposed view of [w]
    transposes back. *)
Definition node_backward (x : tensor T) (g : tensor T) (n : group_node)
  : outcome (tensor T * tensor T * tensor T) :=
  let grad_y_g := slice g (node_start n) (node_end n) in
  do g' <- slice_assign g (node_start n) (node_end n)
             (zeros (nrows grad_y_g) (ncols grad_y_g));
  do grad_x_g <- matmul grad_y_g (transpose (saved_wT n));
  do grad_wT <- matmul (transpose (saved_x_g n)) grad_y_g;
  do grad_x_full <- slice_assign (zeros (nrows x) (ncols x))
                      (node_start n) (node_end n) grad_x_g;
  Ok (g', grad_x_full, transpose grad_wT).

(** Nodes run latest first; a gradient reaching a leaf that already
    holds one is added to it. *)
Fixpoint backward_walk (x : tensor T) (nodes : list group_node)
         (st : grad_state) : outcome grad_state :=
  match nodes with
  | [] => Ok st
  | n :: earlier =>
      do r <- node_backward x (flowing st) n;
      let '(g', gx, gw) := r in
      backward_walk x earlier
        (mkGrads g' (tensor_add (x_grad st) gx) (tensor_add (w_grad st) gw))
  end.

(** [output.backward(grad_output)] followed by reading the two [.grad]
    fields. *)
Definition backward (x : tensor T) (output : tensor T)
           (tape : list group_node) (grad_output : tensor T)
  : outcome (tensor T * tensor T) :=
  if negb (shape_eqb grad_output output) then
    Raise (RuntimeError "Mismatch in shape of grad_output and output")
  else
    match rev tape with
    | [] =>
        Raise (RuntimeError
                 "element 0 of tensors does not require grad and does not have a grad_fn")
    | last :: earlier =>
        do r <- node_backward x grad_output last;
        let '(g', gx, gw) := r in
        do st <- backward_walk x earlier (mkGrads g' gx gw);
        Ok (x_grad st, w_grad st)
    end.

Definition compute_reference_backward (x w : tensor T) (m_sizes : list Z)
           (grad_output : tensor T) : outcome (tensor T * tensor T) :=
  let x_autograd := x in
  let w_autograd := w in
  do rt <- forward_traced x_autograd w_autograd m_sizes;
  let '(output, tape) := rt in
  backward x_autograd output tape grad_output.

End Tensors.

(** ** The comparison harness *)

(** What the comparison needs beyond sums and products.  [tolerance_half]
    is the literal [0.5] in the element type. *)
Class Compare (T : Type) `{Scalar T} : Type := {
  sub : T -> T -> T;
  absolute : T -> T;
  ltb : T -> T -> bool;
  leb : T -> T -> bool;
  eqb : T -> T -> bool;
  is_nan : T -> bool;
  is_finite : T -> bool;
  tolerance_half : T
}.

Inductive level : Type := INFO | ERROR.

(** One record per logging call of the module. *)
Inductive message (T : Type) : Type :=
| LargestDifference (name : string) (max_diff : T) (idx : nat * nat)
| ValuesAt (actual_value expected_value : T)
| MatchesReference (name : string)
| MismatchDetected (name : string)
| ZerosActual (name : string) (zeros_actual total : nat)
| ZerosExpected (name : string) (zeros_expected total : nat)
| NaNDetected (name : string) (nan_actual : nat)
| TestingConfig (number : nat)
| ConfigParameters (G M K N : N)
| InputShapes (x_shape w_shape : nat * nat)
| ForwardResultShape (result_shape : nat * nat)
| ConfigPassed (number : nat)
| ConfigFailed (number : nat)
| ConfigRaised (number : nat) (e : exception)
| Traceback (e : exception)
| SummaryHeader
| SummaryOverall (number : nat) (passed : bool)
| SummaryForward (passed : bool)
| SummaryBackward (passed : bool).

Arguments LargestDifference {T} name max_diff idx.
Arguments ValuesAt {T} actual_value expected_value.
Arguments MatchesReference {T} name.
Arguments MismatchDetected {T} name.
Arguments ZerosActual {T} name zeros_actual total.
Arguments ZerosExpected {T} name zeros_expected total.
Arguments NaNDetected {T} name nan_actual.
Arguments TestingConfig {T} number.
Arguments ConfigParameters {T} G M K N.
Arguments InputShapes {T} x_shape w_shape.
Arguments ForwardResultShape {T} result_shape.
Arguments ConfigPassed {T} number.
Arguments ConfigFailed {T} number.
Arguments ConfigRaised {T} number e.
Arguments Traceback {T} e.
Arguments SummaryHeader {T}.
Arguments SummaryOverall {T} number passed.
Arguments SummaryForward {T} passed.
Arguments SummaryBackward {T} passed.

Definition entry (T : Type) : Type := (level * message T)%type.

(** Code that logs and may raise: the records written so far, in order,
    and how the code ended. *)
Definition logged (T A : Type) : Type := (list (entry T) * outcome A)%type.

Definition ret {T A : Type} (a : A) : logged T A := ([], Ok a).

Definition lift {T A : Type} (m : outcome A) : logged T A := ([], m).

Definition logging {T : Type} (l : level) (m : message T) : logged T unit :=
  ([(l, m)], Ok tt).

Definition lbind {T A B : Type} (m : logged T A) (k : A -> logged T B)
  : logged T B :=
  match snd m with
  | Ok a => (fst m ++ fst (k a), snd (k a))
  | Raise e => (fst m, Raise e)
  end.

Declare Scope logged_scope.
Delimit Scope logged_scope with logged.
Notation "'run' x <- m ; k" := (lbind m (fun x => k))
  (at level 10, x pattern, m at level 100, k at level 200) : logged_scope.
Notation "m ;; k" := (lbind m (fun _ => k))
  (at level 100, right associativity) : logged_scope.
Open Scope logged_scope.

Section Comparison.
Context {T : Type} `{Compare T}.

(** *** Broadcasting of two-dimensional operands *)

Definition broadcast_extent (a b : nat) : option nat :=
  if a =? b then Some a
  else if a =? 1 then Some b
  else if b =? 1 then Some a
  else None.

Definition expand_list {A : Type} (n : nat) (l : list A) : list A :=
  if length l =? n then l
  else match l with
       | [v] => repeat v n
       | _ => l
       end.

Definition expand (r c : nat) (t : tensor T) : tensor T :=
  mkTensor c (expand_list r (map (expand_list c) (rows t))).

Definition broadcast_tensors (a b : tensor T) : outcome (tensor T * tensor T) :=
  match broadcast_extent (nrows a) (nrows b),
        broadcast_extent (ncols a) (ncols b) with
  | Some r, Some c => Ok (expand r c a, expand r c b)
  | _, _ =>
      Raise (RuntimeError "The size of tensor a must match the size of tensor b")
  end.

(** [(actual - expected).abs()] *)
Definition abs_difference (actual expected : tensor T) : outcome (tensor T) :=
  do ab <- broadcast_tensors actual expected;
  Ok (map_tensor absolute (pointwise sub (fst ab) (snd ab))).

(** *** Maximum and its position *)

(** Whether [cur] replaces the running maximum [best]: a NaN is the
    largest value, and among equals the first one stays. *)
Definition replaces (cur best : T) : bool :=
  negb (is_nan best) && (is_nan cur || ltb best cur).

Fixpoint scan_max (l : list T) (i : nat) (best_i : nat) (best : T) : nat * T :=
  match l with
  | [] => (best_i, best)
  | v :: l' =>
      if replaces v best then scan_max l' (S i) i v
      else scan_max l' (S i) best_i best
  end.

(** [t.argmax().item()] *)
Definition argmax (t : tensor T) : outcome nat :=
  match flat t with
  | [] =>
      Raise (IndexError
               "argmax(): Expected reduction dim to be specified for input.numel() == 0.")
  | v :: l => Ok (fst (scan_max l 1 0 v))
  end.

(** [t.max().item()] *)
Definition tensor_max (t : tensor T) : outcome T :=
  match flat t with
  | [] =>
      Raise (RuntimeError
               "max(): Expected reduction dim to be specified for input.numel() == 0")
  | v :: l => Ok (snd (scan_max l 1 0 v))
  end.

(** [np.unravel_index(i, t.shape)] *)
Definition unravel_index (i : nat) (t : tensor T) : outcome (nat * nat) :=
  if i <? numel t then Ok (i / ncols t, i mod ncols t)
  else Raise (ValueError "index is out of bounds for array").

(** [t[idx].item()] *)
Definition item_at (t : tensor T) (idx : nat * nat) : outcome T :=
  match nth_error (rows t) (fst idx) with
  | Some r =>
      match nth_error r (snd idx) with
      | Some v => Ok v
      | None => Raise (IndexError "index is out of bounds for dimension 1")
      end
  | None => Raise (IndexError "index is out of bounds for dimension 0")
  end.

(** *** Closeness *)

(** One element of [torch.isclose] without [equal_nan]: equal, or the
    error is finite and at most [atol + |rtol * expected|]. *)
Definition isclose (rtol atol : T) (a e : T) : bool :=
  eqb a e
  || (is_finite (absolute (sub a e))
      && leb (absolute (sub a e)) (add atol (absolute (mul rtol e)))).

(** [torch.allclose(actual, expected, rtol=rtol, atol=atol)] *)
Definition allclose (actual expected : tensor T) (rtol atol : T) : outcome bool :=
  do ab <- broadcast_tensors actual expected;
  Ok (forallb (fun b => b) (flat (pointwise (isclose rtol atol) (fst ab) (snd ab)))).

Definition count_where (p : T -> bool) (t : tensor T) : nat :=
  length (filter p (flat t)).

(** *** [analyze_tensor_differences] *)

Definition analyze_tensor_differences (actual expected : tensor T) (name : string)
  : logged T bool :=
  let rtol := tolerance_half in
  let atol := tolerance_half in
  run diff <- lift (abs_difference actual expected);
  run max_idx <- lift (argmax diff);
  run idx <- lift (unravel_index max_idx actual);
  run max_diff <- lift (tensor_max diff);
  logging INFO (LargestDifference name max_diff idx);;
  run actual_value <- lift (item_at actual idx);
  run expected_value <- lift (item_at expected idx);
  logging INFO (ValuesAt actual_value expected_value);;
  run is_close <- lift (allclose actual expected rtol atol);
  (if is_close then
     logging INFO (MatchesReference name)
   else
     logging ERROR (MismatchDetected name);;
     let zeros_actual := count_where (fun v => eqb v zero) actual in
     let zeros_expected := count_where (fun v => eqb v zero) expected in
     logging INFO (ZerosActual name zeros_actual (numel actual));;
     logging INFO (ZerosExpected name zeros_expected (numel expected));;
     let nan_actual := count_where is_nan actual in
     if 0 <? nan_actual then logging ERROR (NaNDetected name nan_actual)
     else ret tt);;
  ret is_close.

(** The pairs of corresponding elements of two tensors of one shape. *)
Definition element_pairs (actual expected : tensor T) : list (T * T) :=
  combine (flat actual) (flat expected).

(** The records of one comparison, from what it found. *)
Definition report_records (name : string) (max_diff : T) (idx : nat * nat)
           (actual_value expected_value : T) (is_close : bool)
           (actual expected : tensor T) : list (entry T) :=
  [(INFO, LargestDifference name max_diff idx);
   (INFO, ValuesAt actual_value expected_value)]
  ++ (if is_close then [(INFO, MatchesReference name)]
      else
        [(ERROR, MismatchDetected name);
         (INFO, ZerosActual name (count_where (fun v => eqb v zero) actual)
                            (numel actual));
         (INFO, ZerosExpected name (count_where (fun v => eqb v zero) expected)
                              (numel expected))]
        ++ (if 0 <? count_where is_nan actual
            then [(ERROR, NaNDetected name (count_where is_nan actual))]
            else [])).

Definition is_zero_count (e : entry T) : bool :=
  match snd e with
  | ZerosActual _ _ _ => true
  | ZerosExpected _ _ _ => true
  | _ => false
  end.

Definition is_nan_count (e : entry T) : bool :=
  match snd e with
  | NaNDetected _ _ => true
  | _ => false
  end.

End Comparison.

(** The order of the elements, as far as the maximum needs it. *)
Class CompareLaws (T : Type) `{Compare T} : Prop := {
  ltb_irreflexive : forall a : T, ltb a a = false;
  ltb_transitive : forall a b c : T, ltb a b = true -> ltb b c = true -> ltb a c = true
}.

(** ** The multi-configuration sweep *)

(** A configuration [(G, M, K, N)]. *)
Definition config : Type := (N * N * N * N)%type.

(** A row of [results]: configuration number, overall, forward and
    backward verdicts. *)
Definition result_row : Type := (nat * bool * bool * bool)%type.

Definition overall_success (r : result_row) : bool :=
  let '(_, overall, _, _) := r in overall.

Definition deepseek_configs : list config :=
  [ (4, 8192, 7168, 4096)%N;
    (4, 8192, 2048, 7168)%N;
    (8, 4096, 7168, 4096)%N;
    (8, 4096, 2048, 7168)%N ].

(** [torch.tensor(values, dtype=torch.int32)] *)
Definition int32_tensor (values : list Z) : outcome (list Z) :=
  if forallb (fun v => (-2147483648 <=? v)%Z && (v <=? 2147483647)%Z) values
  then Ok values
  else Raise (RuntimeError "value cannot be converted to type int32 without overflow").

Section Sweep.
Context {T : Type} `{Compare T}.

(** The engine under test is imported from [mg_grouped_gemm]; the
    harness only calls it. *)
Variable grouped_gemm_forward :
  tensor T -> tensor T -> list Z -> outcome (tensor T).
Variable grouped_gemm_backward :
  tensor T -> tensor T -> tensor T -> list Z -> outcome (tensor T * tensor T).

(** [torch.randn]: the tensor drawn for the given configuration index,
    draw number and shape, unless the allocation fails. *)
Variable randn : nat -> nat -> nat -> nat -> outcome (tensor T).

(** The statements inside [try] up to the three comparisons. *)
Definition config_body (config_idx : nat) (c : config)
  : logged T (bool * bool * bool) :=
  let '(G, M, K, N) := c in
  run _ <- lift (if (G =? 0)%N then Raise ZeroDivisionError else Ok tt);
  let base_size := (M / G)%N in
  let remainder := (M mod G)%N in
  let M_sizes :=
    map (fun i => Z.of_N (base_size + (if (i <? remainder)%N then 1 else 0)))
        (map N.of_nat (seq 0 (N.to_nat G))) in
  run m_sizes <- lift (int32_tensor M_sizes);
  run x <- lift (randn config_idx 0 (N.to_nat M) (N.to_nat K));
  run w <- lift (randn config_idx 1 (N.to_nat N) (N.to_nat K));
  logging INFO (InputShapes (shape x) (shape w));;
  run result <- lift (grouped_gemm_forward x w m_sizes);
  logging INFO (ForwardResultShape (shape result));;
  run reference_result <- lift (compute_reference_forward x w m_sizes);
  run forward_close <-
    analyze_tensor_differences result reference_result "Forward output";
  run grad_output <- lift (randn config_idx 2 (nrows result) (ncols result));
  run grads <- lift (grouped_gemm_backward grad_output x w m_sizes);
  let '(grad_x, grad_w) := grads in
  run ref_grads <- lift (compute_reference_backward x w m_sizes grad_output);
  let '(x_ref_grad, w_ref_grad) := ref_grads in
  run grad_x_close <- analyze_tensor_differences grad_x x_ref_grad "grad_x";
  run grad_w_close <- analyze_tensor_differences grad_w w_ref_grad "grad_w";
  ret (forward_close, grad_x_close, grad_w_close).

(** One iteration of the loop over [configs]: the two header records,
    then [try ... except Exception], yielding the row appended to
    [results]. *)
Definition run_config (config_idx : nat) (c : config) : logged T result_row :=
  let '(G, M, K, N) := c in
  logging INFO (TestingConfig (config_idx + 1));;
  logging INFO (ConfigParameters G M K N);;
  let attempt := config_body config_idx c in
  match snd attempt with
  | Ok (forward_close, grad_x_close, grad_w_close) =>
      let backward_close := grad_x_close && grad_w_close in
      let config_success := forward_close && backward_close in
      (fst attempt, Ok tt);;
      (if config_success then logging INFO (ConfigPassed (config_idx + 1))
       else logging ERROR (ConfigFailed (config_idx + 1)));;
      ret (config_idx + 1, config_success, forward_close, backward_close)
  | Raise e =>
      (fst attempt, Ok tt);;
      logging ERROR (ConfigRaised (config_idx + 1) e);;
      logging ERROR (Traceback e);;
      ret (config_idx + 1, false, false, false)
  end.

(** [for config_idx, (G, M, K, N) in enumerate(configs)] *)
Fixpoint sweep_loop (configs : list config) (config_idx : nat)
         (results : list result_row) : logged T (list result_row) :=
  match configs with
  | [] => ret results
  | c :: rest =>
      run row <- run_config config_idx c;
      sweep_loop rest (S config_idx) (results ++ [row])
  end.

Fixpoint log_summary (results : list result_row) : logged T unit :=
  match results with
  | [] => ret tt
  | (config_idx, overall_success, forward_success, backward_success) :: rest =>
      logging INFO (SummaryOverall config_idx overall_success);;
      logging INFO (SummaryForward forward_success);;
      logging INFO (SummaryBackward backward_success);;
      log_summary rest
  end.

(** The sweep over an arbitrary list of configurations. *)
Definition test_configs (configs : list config) : logged T bool :=
  run results <- sweep_loop configs 0 [];
  logging INFO SummaryHeader;;
  log_summary results;;
  ret (forallb overall_success results).

Definition test_multiple_deepseek_configs : logged T bool :=
  test_configs deepseek_configs.

(** The row a configuration earns: its three verdicts when the body
    returns, all [False] when the body raises. *)
Definition verdict (config_idx : nat) (c : config) : result_row :=
  match snd (config_body config_idx c) with
  | Ok (forward_close, grad_x_close, grad_w_close) =>
      (config_idx + 1,
       forward_close && (grad_x_close && grad_w_close),
       forward_close,
       grad_x_close && grad_w_close)
  | Raise _ => (config_idx + 1, false, false, false)
  end.

Fixpoint verdicts (configs : list config) (config_idx : nat) : list result_row :=
  match configs with
  | [] => []
  | c :: rest => verdict config_idx c :: verdicts rest (S config_idx)
  end.

End Sweep.

(** ** Exact rationals as elements *)

#[export] Instance Scalar_Q : Scalar Q :=
  {| zero := 0%Q; add := Qplus; mul := Qmult |}.

#[export] Instance Compare_Q : Compare Q :=
  {| sub := Qminus;
     absolute := Qabs;
     ltb := fun a b => negb (Qle_bool b a);
     leb := Qle_bool;
     eqb := Qeq_bool;
     is_nan := fun _ => false;
     is_finite := fun _ => true;
     tolerance_half := (1 # 2)%Q |}.

#[export] Instance CompareLaws_Q : CompareLaws Q.
Proof.
  constructor; simpl.
  - intros a. apply negb_false_iff, Qle_bool_iff, Qle_refl.
  - intros a b c Hab Hbc.
    apply negb_true_iff in Hab, Hbc. apply negb_true_iff.
    destruct (Qle_bool c a) eqn:Hca; [|reflexivity].
    apply Qle_bool_iff in Hca.
    assert (Hba : Qle_bool b a = true)
      by (apply Qle_bool_iff; apply Qle_trans with c; [|exact Hca];
          apply Qnot_lt_le; intros Hlt;
          assert (Hcb : Qle_bool c b = true) by (apply Qle_bool_iff, Qlt_le_weak, Hlt);
          congruence).
    congruence.
Defined.

Definition tq (k : nat) (l : list (list Q)) : tensor Q := mkTensor k l.

Definition tz (k : nat) (l : list (list Z)) : tensor Z := mkTensor k l.

(** ** Integers kept within [-2, 2] as elements

    A small arithmetic that rounds: a sum or product beyond the range is
    replaced by the nearest bound.  As with floating-point numbers,
    adding zero changes nothing and both operations commute, but sums
    do not associate: [(2 + 1) + -2] is [0] while [2 + (1 + -2)] is
    [1]. *)
Inductive clamped : Type := MinusTwo | MinusOne | Nought | PlusOne | PlusTwo.

Definition clamped_value (a : clamped) : Z :=
  match a with
  | MinusTwo => -2
  | MinusOne => -1
  | Nought => 0
  | PlusOne => 1
  | PlusTwo => 2
  end.

Definition clamp (z : Z) : clamped :=
  if (z <=? -2)%Z then MinusTwo
  else if (z =? -1)%Z then MinusOne
  else if (z =? 0)%Z then Nought
  else if (z =? 1)%Z then PlusOne
  else PlusTwo.

#[export] Instance Scalar_clamped : Scalar clamped :=
  {| zero := Nought;
     add := fun a b => clamp (clamped_value a + clamped_value b);
     mul := fun a b => clamp (clamped_value a * clamped_value b) |}.

#[export] Instance RoundingLaws_clamped : RoundingLaws clamped.
Proof.
  constructor; intros []; try intros []; reflexivity.
Defined.

Definition tc (k : nat) (l : list (list Z)) : tensor clamped :=
  mkTensor k (map (map clamp) l).

(** ** Sample data *)

(** Three rows of two columns, a weight with three output rows, and a
    gradient for the resulting three by three output. *)
Definition sample_x : tensor Z := tz 2 [[1; 2]; [3; 4]; [5; 6]]%Z.
Definition sample_w : tensor Z := tz 2 [[1; 0]; [0; 1]; [1; 1]]%Z.
Definition sample_grad : tensor Z := tz 3 [[1; 1; 1]; [1; 2; 3]; [0; 1; 0]]%Z.
Definition sample_sizes : list Z := [1; 0; 2]%Z.

(** A weight whose inner extent is three instead of two. *)
Definition wide_w : tensor Z := tz 3 [[1; 0; 0]]%Z.

(** Two rows of one column and the one by one identity weight. *)
Definition column_x : tensor Z := tz 1 [[2]; [3]]%Z.
Definition unit_w : tensor Z := tz 1 [[1]]%Z.

(** Three rows of one column, the one by one identity weight and a
    gradient, over the integers kept within [-2, 2]. *)
Definition rounding_x : tensor clamped := tc 1 [[1]; [1]; [1]]%Z.
Definition rounding_w : tensor clamped := tc 1 [[1]]%Z.
Definition rounding_grad : tensor clamped := tc 1 [[2]; [1]; [-2]]%Z.

(** Inputs without rows. *)
Definition empty_x : tensor Z := tz 2 [].
Definition empty_grad : tensor Z := tz 3 [].
Definition empty_column : tensor Z := tz 1 [].

(** Rational tensors for the comparison. *)
Definition measured : tensor Q := tq 2 [[1; 2]; [3; 9]]%Q.
Definition reference : tensor Q := tq 2 [[1; 0]; [3; 4]]%Q.
Definition one_q : tensor Q := tq 1 [[1]]%Q.

(** An engine that is the reference itself, a generator of all-ones
    tensors, and four small configurations: the second divides by zero
    groups and the third has no rows. *)
Definition reference_engine_forward (x w : tensor Q) (m_sizes : list Z)
  : outcome (tensor Q) :=
  compute_reference_forward x w m_sizes.
Definition reference_engine_backward (grad_output x w : tensor Q) (m_sizes : list Z)
  : outcome (tensor Q * tensor Q) :=
  compute_reference_backward x w m_sizes grad_output.
Definition ones (config_idx draw m k : nat) : outcome (tensor Q) :=
  Ok (tq k (repeat (repeat 1%Q k) m)).
Definition small_configs : list config :=
  [(2, 3, 2, 2); (0, 1, 1, 1); (1, 0, 1, 1); (1, 2, 1, 1)]%N.

(** ** Vocabulary of the specification *)

(** [sum(sizes)] *)
Definition total (sizes : list Z) : Z := fold_right Z.add 0%Z sizes.

(** The prefix-sum boundary [offset[g]]. *)
Definition offset (sizes : list Z) (g : nat) : Z := total (firstn g sizes).

(** The rows claimed by the entries the loop does not skip. *)
Definition positive_total (sizes : list Z) : Z :=
  total (filter (fun z => (0 <? z)%Z) sizes).

(** The size of the first group the loop executes, [0] when it
    executes none. *)
Definition first_positive (sizes : list Z) : Z :=
  hd 0%Z (filter (fun z => (0 <? z)%Z) sizes).

Definition remove_zeros (sizes : list Z) : list Z :=
  filter (fun z => negb (z =? 0)%Z) sizes.

Definition non_negative (sizes : list Z) : Prop :=
  Forall (fun z => (0 <= z)%Z) sizes.

(** The groups the loop executes, in order. *)
Definition executed_groups (sizes : list Z) : list nat :=
  filter (fun g => (0 <? nth g sizes 0)%Z) (seq 0 (length sizes)).

Section Expected.
Context {T : Type} `{Scalar T}.

(** The output with the first [s] rows computed and the others still
    zero. *)
Definition filled (x w : tensor T) (s : nat) : tensor T :=
  mkTensor (nrows w)
    (rows (mm (mkTensor (ncols x) (firstn s (rows x))) (transpose w))
     ++ repeat (repeat zero (nrows w)) (nrows x - s)).

(** The nodes the loop records from [m_start] on. *)
Fixpoint expected_nodes (x w : tensor T) (m_sizes : list Z) (m_start : Z)
  : list (group_node (T:=T)) :=
  match m_sizes with
  | [] => []
  | m_size :: rest =>
      if (0 <? m_size)%Z then
        mkNode m_start (m_start + m_size)
               (slice x m_start (m_start + m_size)) (transpose w)
        :: expected_nodes x w rest (m_start + m_size)
      else expected_nodes x w rest m_start
  end.

(** The sum of a list of tensors, taken from [init] in list order. *)
Definition tensor_sum (init : tensor T) (l : list (tensor T)) : tensor T :=
  fold_left tensor_add l init.

(** Rows [offset[g], offset[g+1]) of a tensor. *)
Definition group_slice (t : tensor T) (sizes : list Z) (g : nat) : tensor T :=
  slice t (offset sizes g) (offset sizes (S g)).

(** [sum_g grad_Y_g.T @ X_g], over all groups in order. *)
Definition grad_w_by_groups (x gy : tensor T) (sizes : list Z) : tensor T :=
  tensor_sum (zeros (ncols gy) (ncols x))
    (map (fun g => mm (transpose (group_slice gy sizes g)) (group_slice x sizes g))
         (seq 0 (length sizes))).

(** [grad_Y_g.T @ X_g] for group [g]. *)
Definition group_product (x gy : tensor T) (sizes : list Z) (g : nat) : tensor T :=
  mm (transpose (group_slice gy sizes g)) (group_slice x sizes g).

(** The products of the executed groups, added one by one from the
    last executed group to the first; [None] when no group is
    executed. *)
Definition grad_w_last_first (x gy : tensor T) (sizes : list Z)
  : option (tensor T) :=
  match rev (executed_groups sizes) with
  | [] => None
  | last :: earlier =>
      Some (tensor_sum (group_product x gy sizes last)
              (map (group_product x gy sizes) earlier))
  end.

(** What the loop records for group [g]. *)
Definition recorded_group (x w : tensor T) (sizes : list Z) (g : nat)
  : group_node (T:=T) :=
  mkNode (offset sizes g) (offset sizes (S g))
         (slice x (offset sizes g) (offset sizes (S g))) (transpose w).

(** The gradients once every group starting at row [b] or later has
    been walked: the flowing gradient is cleared from [b] on, the
    gradient of [x] is computed from [b] on, and the gradient of [w],
    under exact arithmetic, sums the rows from [b] on. *)
Definition grads_below (x w gy : tensor T) (b : nat) : grad_state :=
  mkGrads
    (mkTensor (ncols gy)
       (firstn b (rows gy) ++ repeat (repeat zero (ncols gy)) (nrows gy - b)))
    (mkTensor (ncols x)
       (repeat (repeat zero (ncols x)) b
        ++ rows (mm (mkTensor (ncols gy) (skipn b (rows gy))) w)))
    (mm (transpose (mkTensor (ncols gy) (skipn b (rows gy))))
        (mkTensor (ncols x) (skipn b (rows x)))).

(** Rows [s, e) of a tensor, for bounds within it. *)
Definition rows_between (t : tensor T) (s e : Z) : tensor T :=
  mkTensor (ncols t) (row_range (Z.to_nat s) (Z.to_nat e) (rows t)).

(** The gradient one group sends to [x]: zero outside its rows. *)
Definition padded (x w gy : tensor T) (s e : Z) : tensor T :=
  mkTensor (ncols x)
    (repeat (repeat zero (ncols x)) (Z.to_nat s)
     ++ rows (mm (rows_between gy s e) w)
     ++ repeat (repeat zero (ncols x)) (nrows x - Z.to_nat e)).

(** A list of recorded groups in walking order, each ending where the
    one walked before it started, from row [top] down to row [bottom]. *)
Inductive descends (x w : tensor T) : Z -> list group_node -> Z -> Prop :=
| descends_nil (b : Z) : descends x w b [] b
| descends_cons (s e b : Z) (rest : list group_node) :
    (0 <= s <= e)%Z ->
    descends x w s rest b ->
    descends x w e (mkNode s e (slice x s e) (transpose w) :: rest) b.

(** The tensor of shape [(n, k)] with entry [F i j] at [(i, j)]. *)
Definition tabulate (n k : nat) (F : nat -> nat -> T) : tensor T :=
  mkTensor k (map (fun i => map (fun j => F i j) (seq 0 k)) (seq 0 n)).

End Expected.

(** ** Further vocabulary *)

(** The group sizes the sweep builds for [G] groups over [M] rows: the
    remainder of the division goes to the first groups, one row each. *)
Definition even_sizes (G M : N) : list Z :=
  map (fun i => Z.of_N (M / G + (if (i <? M mod G)%N then 1 else 0)))
      (map N.of_nat (seq 0 (N.to_nat G))).

(** A forward engine that returns the plain product. *)
Definition exact_forward {T : Type} `{Scalar T} (x w : tensor T) (m_sizes : list Z)
  : outcome (tensor T) :=
  Ok (mm x (transpose w)).

(** A backward engine that agrees with the reference: it returns the
    gradients the reference computes. *)
Definition agreeing_backward {T : Type} `{Scalar T} (grad_output x w : tensor T)
           (m_sizes : list Z) : outcome (tensor T * tensor T) :=
  compute_reference_backward x w m_sizes grad_output.

(** A configuration with at least one group, at least one row, column
    and output column, and sizes that fit 32 bits. *)
Definition runnable (c : config) : Prop :=
  let '(G, M, K, N) := c in
  G <> 0%N /\ (0 < M < 2147483647)%N /\ (0 < K)%N /\ (0 < N)%N.

(** Every element equals itself: the tensor holds no NaN. *)
Definition self_equal {T : Type} `{Compare T} (t : tensor T) : Prop :=
  Forall (fun v => eqb v v = true) (flat t).

(** The gradients the reference computes from these tensors hold no
    NaN. *)
Definition clean_gradients {T : Type} `{Compare T} (x w gy : tensor T)
           (m_sizes : list Z) : Prop :=
  forall gx gw,
    compute_reference_backward x w m_sizes gy = Ok (gx, gw) ->
    self_equal gx /\ self_equal gw.

(** The draws of one configuration went well: the three tensors have
    the shapes asked for, and the results the reference computes from
    them hold no NaN. *)
Definition clean_draws {T : Type} `{Compare T}
           (randn : nat -> nat -> nat -> nat -> outcome (tensor T))
           (config_idx : nat) (c : config) : Prop :=
  let '(G, M, K, N) := c in
  exists x w gy,
    randn config_idx 0 (N.to_nat M) (N.to_nat K) = Ok x
    /\ has_shape x (N.to_nat M) (N.to_nat K)
    /\ randn config_idx 1 (N.to_nat N) (N.to_nat K) = Ok w
    /\ has_shape w (N.to_nat N) (N.to_nat K)
    /\ randn config_idx 2 (N.to_nat M) (N.to_nat N) = Ok gy
    /\ has_shape gy (N.to_nat M) (N.to_nat N)
    /\ self_equal (mm x (transpose w))
    /\ clean_gradients x w gy (even_sizes G M).

(** ** Canonical rationals as elements *)

#[export] Instance Scalar_Qc : Scalar Qc :=
  {| zero := Q2Qc 0; add := Qcplus; mul := Qcmult |}.

#[export] Instance ScalarLaws_Qc : ScalarLaws Qc.
Proof.
  constructor; simpl; intros.
  - apply Qcplus_0_l.
  - apply Qcplus_0_r.
  - apply Qcplus_comm.
  - apply Qcplus_assoc.
  - apply Qcmult_comm.
Defined.

#[export] Instance Compare_Qc : Compare Qc :=
  {| sub := Qcminus;
     absolute := Qcabs;
     ltb := fun a b => negb (Qle_bool (this b) (this a));
     leb := fun a b => Qle_bool (this a) (this b);
     eqb := Qc_eq_bool;
     is_nan := fun _ => false;
     is_finite := fun _ => true;
     tolerance_half := Q2Qc (1 # 2) |}.

(** The all-ones tensor over the canonical rationals, and a generator
    that always draws it. *)
Definition all_ones_qc (m k : nat) : tensor Qc :=
  mkTensor k (repeat (repeat (Q2Qc 1) k) m).
Definition ones_qc (config_idx draw m k : nat) : outcome (tensor Qc) :=
  Ok (all_ones_qc m k).

(** ** The two basic tests *)

(** One record per logging call of [test_forward_pass] and
    [test_backward_pass]; [Compared] carries a record written by
    [analyze_tensor_differences]. *)
Inductive test_message (T : Type) : Type :=
| Compared (m : message T)
| TestSetup (G M_total N K : Z)
| GroupSizes (m_sizes : list Z)
| InputShape (x_shape : nat * nat)
| WeightShape (w_shape : nat * nat)
| RunningForward
| ResultShape (result_shape : nat * nat)
| ComputingReference
| ComparingWithReference
| CreatedGradient (grad_shape : nat * nat)
| RunningBackward
| GradientShapes (grad_x_shape grad_w_shape : nat * nat)
| RunningReference
| ComparingGradients
| GradientsMatch
| GradientMismatch
| TestFailed (e : exception)
| TestTraceback (e : exception).

Arguments Compared {T} m.
Arguments TestSetup {T} G M_total N K.
Arguments GroupSizes {T} m_sizes.
Arguments InputShape {T} x_shape.
Arguments WeightShape {T} w_shape.
Arguments RunningForward {T}.
Arguments ResultShape {T} result_shape.
Arguments ComputingReference {T}.
Arguments ComparingWithReference {T}.
Arguments CreatedGradient {T} grad_shape.
Arguments RunningBackward {T}.
Arguments GradientShapes {T} grad_x_shape grad_w_shape.
Arguments RunningReference {T}.
Arguments ComparingGradients {T}.
Arguments GradientsMatch {T}.
Arguments GradientMismatch {T}.
Arguments TestFailed {T} e.
Arguments TestTraceback {T} e.

Definition test_entry (T : Type) : Type := (level * test_message T)%type.

Definition traced (T A : Type) : Type := (list (test_entry T) * outcome A)%type.

Definition tret {T A : Type} (a : A) : traced T A := ([], Ok a).

Definition tlift {T A : Type} (m : outcome A) : traced T A := ([], m).

Definition tlog {T : Type} (l : level) (m : test_message T) : traced T unit :=
  ([(l, m)], Ok tt).

(** A call of [analyze_tensor_differences] from a test. *)
Definition compared {T A : Type} (m : logged T A) : traced T A :=
  (map (fun e => (fst e, Compared (snd e))) (fst m), snd m).

Definition tbind {T A B : Type} (m : traced T A) (k : A -> traced T B)
  : traced T B :=
  match snd m with
  | Ok a => (fst m ++ fst (k a), snd (k a))
  | Raise e => (fst m, Raise e)
  end.

(** [try: body  except Exception as e: log twice; return False] *)
Definition guarded {T : Type} (body : traced T bool) : traced T bool :=
  match snd body with
  | Ok b => (fst body, Ok b)
  | Raise e =>
      (fst body ++ [(ERROR, TestFailed e); (ERROR, TestTraceback e)], Ok false)
  end.

Declare Scope traced_scope.
Delimit Scope traced_scope with traced.
Notation "'step' x <- m ; k" := (tbind m (fun x => k))
  (at level 10, x pattern, m at level 100, k at level 200) : traced_scope.
Notation "m >> k" := (tbind m (fun _ => k))
  (at level 100, right associativity) : traced_scope.
Open Scope traced_scope.

Section BasicTests.
Context {T : Type} `{Compare T}.

Variable grouped_gemm_forward :
  tensor T -> tensor T -> list Z -> outcome (tensor T).
Variable grouped_gemm_backward :
  tensor T -> tensor T -> tensor T -> list Z -> outcome (tensor T * tensor T).

(** [torch.randn] inside one test: the tensor drawn for the given draw
    number and shape, unless the allocation fails. *)
Variable draw : nat -> nat -> nat -> outcome (tensor T).

(** The statements inside [try] in [test_forward_pass]. *)
Definition forward_test_body : traced T bool :=
  let G := 1%Z in
  let M_sizes := [2048%Z] in
  let M_total := total M_sizes in
  let N := 4096%Z in
  let K := 7168%Z in
  step m_sizes <- tlift (int32_tensor M_sizes);
  step x <- tlift (draw 0 (Z.to_nat M_total) (Z.to_nat K));
  step w <- tlift (draw 1 (Z.to_nat N) (Z.to_nat K));
  tlog INFO (TestSetup G M_total N K) >>
  tlog INFO (GroupSizes m_sizes) >>
  tlog INFO (InputShape (shape x)) >>
  tlog INFO (WeightShape (shape w)) >>
  tlog INFO RunningForward >>
  step result <- tlift (grouped_gemm_forward x w m_sizes);
  tlog INFO (ResultShape (shape result)) >>
  tlog INFO ComputingReference >>
  step reference_result <- tlift (compute_reference_forward x w m_sizes);
  tlog INFO ComparingWithReference >>
  step forward_close <-
    compared (analyze_tensor_differences result reference_result "Forward output");
  tret forward_close.

Definition test_forward_pass : traced T bool := guarded forward_test_body.

(** The statements inside [try] in [test_backward_pass]. *)
Definition backward_test_body : traced T bool :=
  let G := 4%Z in
  let M_sizes := [2048; 2048; 2048; 2048]%Z in
  let M_total := total M_sizes in
  let N := 4096%Z in
  let K := 7168%Z in
  step m_sizes <- tlift (int32_tensor M_sizes);
  step x <- tlift (draw 0 (Z.to_nat M_total) (Z.to_nat K));
  step w <- tlift (draw 1 (Z.to_nat N) (Z.to_nat K));
  tlog INFO (TestSetup G M_total N K) >>
  tlog INFO (GroupSizes m_sizes) >>
  tlog INFO (InputShape (shape x)) >>
  tlog INFO (WeightShape (shape w)) >>
  tlog INFO RunningForward >>
  step result <- tlift (grouped_gemm_forward x w m_sizes);
  tlog INFO (ResultShape (shape result)) >>
  step grad_output <- tlift (draw 2 (nrows result) (ncols result));
  tlog INFO (CreatedGradient (shape grad_output)) >>
  tlog INFO RunningBackward >>
  step grads <- tlift (grouped_gemm_backward grad_output x w m_sizes);
  let '(grad_x, grad_w) := grads in
  tlog INFO (GradientShapes (shape grad_x) (shape grad_w)) >>
  tlog INFO RunningReference >>
  step ref_grads <- tlift (compute_reference_backward x w m_sizes grad_output);
  let '(x_ref_grad, w_ref_grad) := ref_grads in
  tlog INFO ComparingGradients >>
  step grad_x_close <-
    compared (analyze_tensor_differences grad_x x_ref_grad "grad_x");
  step grad_w_close <-
    compared (analyze_tensor_differences grad_w w_ref_grad "grad_w");
  (if grad_x_close && grad_w_close then tlog INFO GradientsMatch
   else tlog ERROR GradientMismatch) >>
  tret (grad_x_close && grad_w_close).

Definition test_backward_pass : traced T bool := guarded backward_test_body.

End BasicTests.

(** Draws of all-ones tensors over the canonical rationals, and an
    engine that always fails. *)
Definition draw_ones_qc (d m k : nat) : outcome (tensor Qc) :=
  Ok (all_ones_qc m k).
Definition failing_forward (x w : tensor Qc) (m_sizes : list Z)
  : outcome (tensor Qc) :=
  Raise (OtherError "OutOfResources" "out of resource: shared memory").

(** * Properties *)

(** ** Lists of rows *)

Section RowLists.
Context {A : Type}.

Lemma skipn_repeat (z : A) (n m : nat) :
  skipn n (repeat z m) = repeat z (m - n).
Proof.
  revert m; induction n as [|n IH]; intros [|m]; simpl; auto.
Qed.

Lemma firstn_repeat (z : A) (n m : nat) :
  firstn n (repeat z m) = repeat z (Nat.min n m).
Proof.
  revert m; induction n as [|n IH]; intros [|m]; simpl; auto.
  now rewrite IH.
Qed.

Lemma row_range_length (lo hi : nat) (l : list A) :
  hi <= length l -> length (row_range lo hi l) = hi - lo.
Proof.
  intros Hhi. unfold row_range.
  rewrite length_firstn, length_skipn. lia.
Qed.

Lemma firstn_row_range (lo hi : nat) (l : list A) :
  lo <= hi -> firstn hi l = firstn lo l ++ row_range lo hi l.
Proof.
  intros Hle. unfold row_range.
  rewrite <- (firstn_skipn lo (firstn hi l)).
  rewrite firstn_firstn, Nat.min_l by lia.
  f_equal. now rewrite skipn_firstn_comm.
Qed.

Lemma row_range_skipn (lo hi : nat) (l : list A) :
  lo <= hi -> skipn lo l = row_range lo hi l ++ skipn hi l.
Proof.
  intros Hle. unfold row_range.
  rewrite <- (firstn_skipn (hi - lo) (skipn lo l)) at 1.
  f_equal. rewrite skipn_skipn. f_equal. lia.
Qed.

End RowLists.

Lemma row_range_map {A B : Type} (f : A -> B) (lo hi : nat) (l : list A) :
  row_range lo hi (map f l) = map f (row_range lo hi l).
Proof.
  unfold row_range. now rewrite skipn_map, firstn_map.
Qed.

(** Writing the images of rows [lo, hi) over a block whose first [lo]
    rows are already images and whose other rows are still blank. *)
Lemma splice_rows {A B : Type} (f : A -> B) (X : list A) (z : B) (lo hi : nat) :
  lo <= hi -> hi <= length X ->
  firstn lo (map f (firstn lo X) ++ repeat z (length X - lo))
    ++ map f (row_range lo hi X)
    ++ skipn (Nat.max lo hi) (map f (firstn lo X) ++ repeat z (length X - lo))
  = map f (firstn hi X) ++ repeat z (length X - hi).
Proof.
  intros Hle Hhi.
  assert (Hlen : length (map f (firstn lo X)) = lo)
    by (rewrite length_map, length_firstn; lia).
  rewrite firstn_app, Hlen, Nat.sub_diag. simpl. rewrite app_nil_r.
  rewrite <- Hlen at 1. rewrite firstn_all.
  rewrite skipn_app, Hlen, Nat.max_r by lia.
  rewrite (skipn_all2 (map f (firstn lo X))) by lia. simpl.
  rewrite skipn_repeat.
  rewrite (firstn_row_range lo hi X Hle), map_app, <- app_assoc.
  do 3 f_equal. lia.
Qed.

(** ** The forward loop *)

Section Forward.
Context {T : Type} `{Scalar T}.

Lemma slice_bound_nonneg (len : nat) (i : Z) :
  (0 <= i)%Z -> slice_bound len i = Nat.min (Z.to_nat i) len.
Proof.
  intros Hi. unfold slice_bound.
  destruct (Z.ltb_spec i 0); [lia | reflexivity].
Qed.

Lemma slice_in_range (t : tensor T) (s e : Z) :
  (0 <= s <= e)%Z -> (e <= Z.of_nat (nrows t))%Z ->
  slice t s e = rows_between t s e.
Proof.
  intros Hs He. unfold slice, rows_between.
  rewrite !slice_bound_nonneg by lia. f_equal. f_equal; lia.
Qed.

Lemma nrows_transpose (w : tensor T) : nrows (transpose w) = ncols w.
Proof.
  unfold nrows, transpose. simpl. now rewrite length_map, length_seq.
Qed.

Lemma nrows_filled (x w : tensor T) (s : nat) : nrows (filled x w s) = nrows x.
Proof.
  unfold filled, mm, nrows. simpl.
  rewrite length_app, length_map, length_firstn, repeat_length. lia.
Qed.

Lemma filled_clamp (x w : tensor T) (s : nat) :
  filled x w s = filled x w (Nat.min s (nrows x)).
Proof.
  unfold filled, nrows. f_equal. f_equal.
  - destruct (Nat.le_ge_cases s (length (rows x))) as [Hs|Hs].
    + now rewrite Nat.min_l.
    + rewrite Nat.min_r by assumption.
      now rewrite firstn_all, firstn_all2.
  - f_equal. lia.
Qed.

Lemma matmul_agree (a b : tensor T) :
  ncols a = nrows b -> matmul a b = Ok (mm a b).
Proof.
  intros Hk. unfold matmul. now rewrite Hk, Nat.eqb_refl.
Qed.

(** One executed group turns [filled s] into [filled e]. *)
Lemma group_step (x w : tensor T) (m_start m_end : Z) :
  (0 <= m_start <= m_end)%Z ->
  slice_assign (filled x w (Z.to_nat m_start)) m_start m_end
               (mm (slice x m_start m_end) (transpose w))
  = Ok (filled x w (Z.to_nat m_end)).
Proof.
  intros Hb.
  rewrite (filled_clamp x w (Z.to_nat m_start)),
          (filled_clamp x w (Z.to_nat m_end)).
  set (lo := Nat.min (Z.to_nat m_start) (nrows x)).
  set (hi := Nat.min (Z.to_nat m_end) (nrows x)).
  assert (Hlohi : lo <= hi) by (unfold lo, hi; lia).
  assert (Hhi : hi <= length (rows x)) by (unfold hi, nrows; lia).
  assert (Hlo : slice_bound (nrows x) m_start = lo)
    by (rewrite slice_bound_nonneg by lia; reflexivity).
  assert (Hhi' : slice_bound (nrows x) m_end = hi)
    by (rewrite slice_bound_nonneg by lia; reflexivity).
  unfold slice_assign, slice.
  rewrite nrows_filled, Hlo, Hhi'.
  assert (Hrows : nrows (mm (mkTensor (ncols x) (row_range lo hi (rows x)))
                            (transpose w)) = hi - lo).
  { unfold nrows, mm. simpl. rewrite length_map.
    now apply row_range_length. }
  rewrite Hrows, Nat.eqb_refl.
  change (ncols (mm (mkTensor (ncols x) (row_range lo hi (rows x))) (transpose w)))
    with (nrows w).
  change (ncols (filled x w lo)) with (nrows w).
  rewrite Nat.eqb_refl. simpl. unfold filled. do 2 f_equal.
  unfold nrows, mm. simpl. now apply splice_rows.
Qed.

(** The loop from any reachable state. *)
Lemma forward_loop_filled (x w : tensor T) (m_sizes : list Z) :
  ncols x = ncols w ->
  forall (m_start : Z) (tape : list group_node),
    (0 <= m_start)%Z ->
    forward_loop x w m_sizes m_start (filled x w (Z.to_nat m_start)) tape
    = Ok (filled x w (Z.to_nat (m_start + positive_total m_sizes)),
          tape ++ expected_nodes x w m_sizes m_start).
Proof.
  intros Hk. induction m_sizes as [|m_size rest IH]; intros m_start tape Hs.
  - simpl. unfold positive_total. simpl.
    now rewrite Z.add_0_r, app_nil_r.
  - simpl. unfold positive_total. simpl.
    destruct (Z.ltb_spec 0 m_size) as [Hpos|Hskip].
    + rewrite matmul_agree by (rewrite nrows_transpose; exact Hk).
      simpl. rewrite group_step by lia. simpl.
      rewrite IH by lia. unfold positive_total.
      rewrite <- app_assoc. simpl. do 3 f_equal. lia.
    + now rewrite IH.
Qed.

End Forward.

(** ** Consequences for the reference forward pass *)

Section ForwardResults.
Context {T : Type} `{Scalar T}.

Lemma zeros_filled (x w : tensor T) : zeros (nrows x) (nrows w) = filled x w 0.
Proof.
  unfold zeros, filled. simpl. now rewrite Nat.sub_0_r.
Qed.

Lemma filled_all (x w : tensor T) (s : nat) :
  nrows x <= s -> filled x w s = mm x (transpose w).
Proof.
  intros Hs. unfold filled, mm. simpl. f_equal.
  rewrite firstn_all2 by exact Hs.
  replace (nrows x - s) with 0 by lia. simpl. apply app_nil_r.
Qed.

Lemma total_positive (sizes : list Z) :
  non_negative sizes -> positive_total sizes = total sizes.
Proof.
  unfold positive_total. induction 1 as [|z l Hz _ IH]; simpl; [reflexivity|].
  destruct (Z.ltb_spec 0 z); simpl; lia.
Qed.

Lemma positive_total_nonneg (sizes : list Z) : (0 <= positive_total sizes)%Z.
Proof.
  unfold positive_total. induction sizes as [|z l IH]; simpl; [lia|].
  destruct (Z.ltb_spec 0 z); simpl; lia.
Qed.

(** Whatever the sizes are, the traced pass succeeds as soon as the
    inner extents agree, and computes the rows claimed by the positive
    entries. *)
Lemma forward_traced_filled (x w : tensor T) (sizes : list Z) :
  ncols x = ncols w ->
  forward_traced x w sizes
  = Ok (filled x w (Z.to_nat (positive_total sizes)),
        expected_nodes x w sizes 0%Z).
Proof.
  intros Hk. unfold forward_traced. rewrite zeros_filled.
  exact (forward_loop_filled x w sizes Hk 0%Z [] (Z.le_refl 0)).
Qed.

Lemma forward_filled (x w : tensor T) (sizes : list Z) :
  ncols x = ncols w ->
  compute_reference_forward x w sizes
  = Ok (filled x w (Z.to_nat (positive_total sizes))).
Proof.
  intros Hk. unfold compute_reference_forward.
  now rewrite forward_traced_filled.
Qed.

(** On a partition of the rows the result is the full product. *)
Lemma forward_valid (x w : tensor T) (sizes : list Z) :
  ncols x = ncols w -> non_negative sizes ->
  total sizes = Z.of_nat (nrows x) ->
  compute_reference_forward x w sizes = Ok (mm x (transpose w)).
Proof.
  intros Hk Hnn Hsum. rewrite forward_filled by assumption.
  rewrite total_positive, Hsum, Nat2Z.id by assumption.
  now rewrite filled_all.
Qed.

Lemma mm_well_formed (a b : tensor T) : well_formed (mm a b).
Proof.
  unfold well_formed, mm. simpl. apply Forall_forall.
  intros r Hr. apply in_map_iff in Hr as [r' [<- _]].
  now rewrite length_map, length_seq.
Qed.

Lemma mm_has_shape (a b : tensor T) : has_shape (mm a b) (nrows a) (ncols b).
Proof.
  repeat split.
  - unfold nrows, mm. simpl. apply length_map.
  - apply mm_well_formed.
Qed.

(** The product is computed row by row, so it commutes with slicing. *)
Lemma slice_mm (a b : tensor T) (s e : Z) :
  slice (mm a b) s e = mm (slice a s e) b.
Proof.
  unfold slice, mm, nrows. simpl. rewrite length_map. f_equal.
  apply row_range_map.
Qed.

(** Skipped entries leave no trace in the loop. *)
Lemma forward_loop_remove_zeros (x w : tensor T) (sizes : list Z) :
  forall m_start result tape,
    forward_loop x w (remove_zeros sizes) m_start result tape
    = forward_loop x w sizes m_start result tape.
Proof.
  induction sizes as [|z rest IH]; intros m_start result tape; [reflexivity|].
  simpl. destruct (Z.eqb_spec z 0) as [->|Hz]; simpl.
  - apply IH.
  - destruct (0 <? z)%Z; [|apply IH].
    destruct (matmul _ _); simpl; [|reflexivity].
    destruct (slice_assign _ _ _ _); simpl; [apply IH|reflexivity].
Qed.

(** C1: on a partition of the rows of [x] into groups, the reference
    forward pass returns a tensor of shape [(M, N)] whose rows
    [offset g, offset (g+1)) are the product of the same rows of [x]
    with [w.T], for every group [g]. *)
Theorem forward_group_slices (x w : tensor T) (sizes : list Z) (M K N : nat) :
  has_shape x M K -> has_shape w N K ->
  non_negative sizes -> total sizes = Z.of_nat M ->
  exists y,
    compute_reference_forward x w sizes = Ok y
    /\ has_shape y M N
    /\ forall g, g < length sizes ->
         matmul (slice x (offset sizes g) (offset sizes (S g))) (transpose w)
         = Ok (slice y (offset sizes g) (offset sizes (S g))).
Proof.
  intros [Hxm [Hxk _]] [Hwn [Hwk _]] Hnn Hsum.
  exists (mm x (transpose w)). split; [|split].
  - apply forward_valid; congruence.
  - rewrite <- Hxm, <- Hwn. apply (mm_has_shape x (transpose w)).
  - intros g _. rewrite slice_mm. apply matmul_agree.
    rewrite nrows_transpose. simpl. congruence.
Qed.

(** C3: dropping the zero entries of a valid size vector changes
    neither the output nor what is computed for it, and both calls
    return normally. *)
Theorem zero_groups_are_noops (x w : tensor T) (sizes : list Z) (M K N : nat) :
  has_shape x M K -> has_shape w N K ->
  non_negative sizes -> total sizes = Z.of_nat M ->
  In 0%Z sizes ->
  exists y nodes,
    forward_traced x w sizes = Ok (y, nodes)
    /\ forward_traced x w (remove_zeros sizes) = Ok (y, nodes)
    /\ compute_reference_forward x w sizes = Ok y
    /\ compute_reference_forward x w (remove_zeros sizes) = Ok y.
Proof.
  intros [Hxm [Hxk _]] [Hwn [Hwk _]] Hnn Hsum _.
  assert (Hk : ncols x = ncols w) by congruence.
  exists (filled x w (Z.to_nat (positive_total sizes))),
         (expected_nodes x w sizes 0%Z).
  assert (Htr : forward_traced x w (remove_zeros sizes) = forward_traced x w sizes)
    by apply forward_loop_remove_zeros.
  unfold compute_reference_forward. rewrite Htr.
  rewrite forward_traced_filled by assumption. auto.
Qed.

(** C4: with the single group [sizes = [M]] the reference forward pass
    is the plain product [x @ w.T]. *)
Theorem single_group_is_matmul (x w : tensor T) (M K N : nat) :
  has_shape x M K -> has_shape w N K ->
  compute_reference_forward x w [Z.of_nat M] = matmul x (transpose w).
Proof.
  intros [Hxm [Hxk _]] [Hwn [Hwk _]].
  assert (Hk : ncols x = ncols w) by congruence.
  rewrite matmul_agree by (rewrite nrows_transpose; exact Hk).
  apply forward_valid; [exact Hk| |].
  - constructor; [lia|constructor].
  - simpl. lia.
Qed.

(** C5: for valid inputs the output has shape
    [(sum(sizes), w.shape[0])]. *)
Theorem forward_shape (x w : tensor T) (sizes : list Z) (M K N : nat) :
  has_shape x M K -> has_shape w N K ->
  sizes <> [] -> non_negative sizes -> total sizes = Z.of_nat M ->
  exists y,
    compute_reference_forward x w sizes = Ok y
    /\ shape y = (Z.to_nat (total sizes), nrows w)
    /\ well_formed y.
Proof.
  intros [Hxm [Hxk _]] [Hwn [Hwk _]] _ Hnn Hsum.
  exists (mm x (transpose w)). split; [|split].
  - apply forward_valid; congruence.
  - rewrite Hsum, Nat2Z.id, <- Hxm. unfold shape. f_equal.
    unfold nrows, mm. simpl. apply length_map.
  - apply mm_well_formed.
Qed.

End ForwardResults.

(** ** Lists, tables and sums of products *)

Section Zips.
Context {A B : Type}.

Lemma combine_app (a b : list A) (c d : list B) :
  length a = length c ->
  combine (a ++ b) (c ++ d) = combine a c ++ combine b d.
Proof.
  revert c. induction a as [|v a IH]; intros [|u c] Hlen;
    simpl in *; try discriminate; [reflexivity|].
  f_equal. apply IH. now injection Hlen.
Qed.

Lemma combine_map_same {X : Type} (f : X -> A) (g : X -> B) (l : list X) :
  combine (map f l) (map g l) = map (fun v => (f v, g v)) l.
Proof.
  induction l as [|v l IH]; simpl; [reflexivity|now rewrite IH].
Qed.

End Zips.

Lemma map_nth_seq {A : Type} (l : list A) (d : A) :
  map (fun j => nth j l d) (seq 0 (length l)) = l.
Proof.
  induction l as [|v l IH]; simpl; [reflexivity|].
  f_equal. rewrite <- seq_shift, map_map. exact IH.
Qed.

Lemma nth_map_seq {A : Type} (f : nat -> A) (n j : nat) (d : A) :
  j < n -> nth j (map f (seq 0 n)) d = f j.
Proof.
  intros Hj. rewrite (nth_indep _ d (f 0)) by (now rewrite length_map, length_seq).
  rewrite map_nth, seq_nth by exact Hj. reflexivity.
Qed.

Lemma map_as_seq {A B : Type} (g : A -> B) (l : list A) (d : A) :
  map g l = map (fun i => g (nth i l d)) (seq 0 (length l)).
Proof.
  rewrite <- (map_nth_seq l d) at 1. now rewrite map_map.
Qed.

Lemma zip_rows_app {A B C : Type} (f : A -> B -> C)
      (a b : list (list A)) (c d : list (list B)) :
  length a = length c ->
  zip_rows f (a ++ b) (c ++ d) = zip_rows f a c ++ zip_rows f b d.
Proof.
  intros Hlen. unfold zip_rows. now rewrite combine_app, map_app.
Qed.

Section Tables.
Context {T : Type} `{Scalar T}.

Lemma tabulate_ext (n k : nat) (F G : nat -> nat -> T) :
  (forall i j, i < n -> j < k -> F i j = G i j) ->
  tabulate n k F = tabulate n k G.
Proof.
  intros Hext. unfold tabulate. f_equal.
  apply map_ext_in. intros i Hi. apply in_seq in Hi.
  apply map_ext_in. intros j Hj. apply in_seq in Hj.
  apply Hext; lia.
Qed.

Lemma pointwise_tabulate (f : T -> T -> T) (n k : nat) (F G : nat -> nat -> T) :
  pointwise f (tabulate n k F) (tabulate n k G)
  = tabulate n k (fun i j => f (F i j) (G i j)).
Proof.
  unfold pointwise, tabulate, zip_rows. simpl. f_equal.
  rewrite combine_map_same, map_map. apply map_ext. intros i. simpl.
  now rewrite combine_map_same, map_map.
Qed.

Lemma column_tabulate (n k : nat) (F : nat -> nat -> T) (j : nat) :
  j < k -> column j (tabulate n k F) = map (fun i => F i j) (seq 0 n).
Proof.
  intros Hj. unfold column, tabulate. simpl. rewrite map_map.
  apply map_ext. intros i. now apply nth_map_seq.
Qed.

Lemma transpose_tabulate (n k : nat) (F : nat -> nat -> T) :
  transpose (tabulate n k F) = tabulate k n (fun j i => F i j).
Proof.
  unfold transpose. unfold nrows. simpl. rewrite length_map, length_seq.
  unfold tabulate at 2. f_equal.
  apply map_ext_in. intros j Hj. apply in_seq in Hj.
  apply column_tabulate. lia.
Qed.

(** A transposed operand on the left makes the product a table of
    column-by-column sums. *)
Lemma mm_transpose_l (g x : tensor T) :
  mm (transpose g) x
  = tabulate (ncols g) (ncols x) (fun n k => dot (column n g) (column k x)).
Proof.
  unfold mm, transpose, tabulate. simpl. now rewrite map_map.
Qed.

Lemma transpose_as_table (w : tensor T) :
  transpose w
  = tabulate (ncols w) (nrows w) (fun j i => nth j (nth i (rows w) []) zero).
Proof.
  unfold transpose, tabulate, column, nrows. f_equal.
  apply map_ext. intros j.
  exact (map_as_seq (fun r => nth j r zero) (rows w) []).
Qed.

Lemma transpose_involutive (w : tensor T) :
  well_formed w -> transpose (transpose w) = w.
Proof.
  intros Hwf. rewrite (transpose_as_table w), transpose_tabulate.
  destruct w as [k rs]. unfold tabulate, nrows, well_formed in *. simpl in *.
  f_equal. rewrite <- (map_nth_seq rs []) at 2.
  apply map_ext_in. intros i Hi. apply in_seq in Hi.
  assert (Hlen : length (nth i rs []) = k).
  { rewrite Forall_forall in Hwf. apply Hwf. apply nth_In. lia. }
  rewrite <- Hlen. apply map_nth_seq.
Qed.

End Tables.

(** Sums of products under exact arithmetic. *)
Section Sums.
Context {T : Type} `{ScalarLaws T}.

Lemma fold_add_shift (l : list T) (a : T) :
  fold_left add l a = add a (fold_left add l zero).
Proof.
  revert a. induction l as [|v l IH]; intros a; simpl.
  - now rewrite add_zero_r.
  - rewrite (IH (add a v)), (IH (add zero v)), add_zero_l.
    now rewrite add_associates.
Qed.

Lemma dot_app (u1 u2 v1 v2 : list T) :
  length u1 = length v1 ->
  dot (u1 ++ u2) (v1 ++ v2) = add (dot u1 v1) (dot u2 v2).
Proof.
  intros Hlen. unfold dot.
  rewrite combine_app, map_app, fold_left_app by exact Hlen.
  apply fold_add_shift.
Qed.

Lemma column_app (j k1 k2 : nat) (ra rb : list (list T)) :
  column j (mkTensor k1 (ra ++ rb))
  = column j (mkTensor k2 ra) ++ column j (mkTensor k2 rb).
Proof.
  unfold column. simpl. apply map_app.
Qed.

(** Splitting the rows of both operands splits [g.T @ x] into a sum. *)
Lemma gram_app (N K : nat) (A B XA XB : list (list T)) :
  length A = length XA ->
  mm (transpose (mkTensor N (A ++ B))) (mkTensor K (XA ++ XB))
  = tensor_add (mm (transpose (mkTensor N A)) (mkTensor K XA))
               (mm (transpose (mkTensor N B)) (mkTensor K XB)).
Proof.
  intros Hlen. rewrite !mm_transpose_l. simpl.
  unfold tensor_add. rewrite pointwise_tabulate.
  apply tabulate_ext. intros n k _ _.
  rewrite (column_app n N N), (column_app k K K).
  apply dot_app. unfold column. simpl. now rewrite !length_map.
Qed.

Lemma gram_nil (N K : nat) :
  mm (transpose (mkTensor N [])) (mkTensor K ([] : list (list T))) = zeros N K.
Proof.
  rewrite mm_transpose_l. unfold tabulate, zeros. simpl. f_equal.
  rewrite <- (length_seq N 0) at 2. rewrite <- map_const.
  apply map_ext. intros n.
  rewrite <- (length_seq K 0) at 2. now rewrite <- map_const.
Qed.

Lemma tensor_add_comm_gram (a b c d : tensor T) :
  ncols a = ncols c -> ncols b = ncols d ->
  tensor_add (mm (transpose a) b) (mm (transpose c) d)
  = tensor_add (mm (transpose c) d) (mm (transpose a) b).
Proof.
  intros Hac Hbd. rewrite !mm_transpose_l. unfold tensor_add.
  rewrite Hac, Hbd, !pointwise_tabulate.
  apply tabulate_ext. intros. apply add_commutes.
Qed.

End Sums.

Section Products.
Context {T : Type} `{RoundingLaws T}.

Lemma dot_comm (u v : list T) : dot u v = dot v u.
Proof.
  unfold dot. generalize (zero : T).
  revert v. induction u as [|a u IH]; intros [|b v] acc; simpl; try reflexivity.
  rewrite (times_commutes a b). apply IH.
Qed.

(** [(x_g.T @ g).T = g.T @ x_g] *)
Lemma transpose_mm_transpose (x_g g : tensor T) :
  transpose (mm (transpose x_g) g) = mm (transpose g) x_g.
Proof.
  rewrite !mm_transpose_l, transpose_tabulate.
  apply tabulate_ext. intros. apply dot_comm.
Qed.

End Products.

(** ** Adding zero blocks *)

Section ZeroBlocks.
Context {T : Type} `{RoundingLaws T}.

Let addp := fun q : T * T => add (fst q) (snd q).

Lemma zero_row_add_l (r : list T) :
  map addp (combine (repeat zero (length r)) r) = r.
Proof.
  induction r as [|v r IH]; simpl; [reflexivity|].
  unfold addp at 1. simpl. now rewrite zero_plus, IH.
Qed.

Lemma zero_row_add_r (r : list T) :
  map addp (combine r (repeat zero (length r))) = r.
Proof.
  induction r as [|v r IH]; simpl; [reflexivity|].
  unfold addp at 1. simpl. now rewrite plus_zero, IH.
Qed.

Lemma zip_rows_zero_l (K : nat) (Q : list (list T)) :
  Forall (fun r => length r = K) Q ->
  zip_rows add (repeat (repeat zero K) (length Q)) Q = Q.
Proof.
  unfold zip_rows. induction 1 as [|r Q Hr _ IH]; simpl; [reflexivity|].
  rewrite IH. f_equal. subst K. apply zero_row_add_l.
Qed.

Lemma zip_rows_zero_r (K : nat) (Q : list (list T)) :
  Forall (fun r => length r = K) Q ->
  zip_rows add Q (repeat (repeat zero K) (length Q)) = Q.
Proof.
  unfold zip_rows. induction 1 as [|r Q Hr _ IH]; simpl; [reflexivity|].
  rewrite IH. f_equal. subst K. apply zero_row_add_r.
Qed.

Lemma zip_rows_zero_zero (K n : nat) :
  zip_rows add (repeat (repeat zero K) n) (repeat (repeat zero K) n)
  = repeat (repeat (zero : T) K) n.
Proof.
  rewrite <- (repeat_length (repeat (zero : T) K) n) at 1.
  apply zip_rows_zero_l. apply Forall_forall. intros r Hr.
  apply repeat_spec in Hr. subst r. apply repeat_length.
Qed.

End ZeroBlocks.

(** ** Walking the recorded groups backwards *)

Section FlowingGradient.
Context {A : Type}.

Lemma flow_slice (s e : nat) (G Z : list A) :
  e <= length G ->
  row_range s e (firstn e G ++ Z) = row_range s e G.
Proof.
  intros He. unfold row_range.
  rewrite skipn_app, firstn_app, length_skipn, !length_firstn.
  replace (e - s - (Nat.min e (length G) - s)) with 0 by lia.
  simpl. rewrite app_nil_r.
  rewrite skipn_firstn_comm, firstn_firstn. f_equal. lia.
Qed.

Lemma flow_clear (s e : nat) (G : list A) (z : A) :
  s <= e -> e <= length G ->
  firstn s (firstn e G ++ repeat z (length G - e))
    ++ repeat z (e - s)
    ++ skipn (Nat.max s e) (firstn e G ++ repeat z (length G - e))
  = firstn s G ++ repeat z (length G - s).
Proof.
  intros Hse He.
  rewrite firstn_app, length_firstn, firstn_firstn.
  replace (s - Nat.min e (length G)) with 0 by lia. simpl. rewrite app_nil_r.
  rewrite Nat.min_l by lia.
  rewrite skipn_app, length_firstn, skipn_repeat.
  rewrite (skipn_all2 (firstn e G)) by (rewrite length_firstn; lia). simpl.
  rewrite <- repeat_app. do 2 f_equal. lia.
Qed.

End FlowingGradient.

Section Chains.
Context {T : Type} `{Scalar T}.
Variables x w : tensor T.

Lemma descends_le {e b : Z} {nodes : list group_node} :
  descends x w e nodes b -> (b <= e)%Z.
Proof.
  induction 1; lia.
Qed.

Lemma descends_app (a b c : Z) (l l' : list group_node) :
  descends x w a l b -> descends x w b l' c -> descends x w a (l ++ l') c.
Proof.
  induction 1; intros Hl'; simpl; [assumption|].
  constructor; auto.
Qed.

Lemma expected_nodes_descends (sizes : list Z) :
  forall s, (0 <= s)%Z ->
    descends x w (s + positive_total sizes) (rev (expected_nodes x w sizes s)) s.
Proof.
  induction sizes as [|z rest IH]; intros s Hs; simpl.
  - unfold positive_total. simpl. rewrite Z.add_0_r. constructor.
  - unfold positive_total. simpl.
    destruct (Z.ltb_spec 0 z) as [Hz|Hz]; simpl.
    + apply descends_app with (b := (s + z)%Z).
      * replace (s + (z + total (filter (fun z0 => (0 <? z0)%Z) rest)))%Z
          with ((s + z) + positive_total rest)%Z by (unfold positive_total; lia).
        apply IH. lia.
      * constructor; [lia|constructor].
    + apply IH. exact Hs.
Qed.

End Chains.

Section BackwardWalk.
Context {T : Type} `{RoundingLaws T}.
Variables x w gy : tensor T.
Hypothesis Hw : well_formed w.
Hypothesis Hk : ncols x = ncols w.
Hypothesis Hm : nrows gy = nrows x.
Hypothesis Hn : ncols gy = nrows w.

Let zrow_x := repeat (zero : T) (ncols x).

Lemma bound_in_range (len : nat) (i : Z) :
  (0 <= i <= Z.of_nat len)%Z -> slice_bound len i = Z.to_nat i.
Proof.
  intros Hi. rewrite slice_bound_nonneg by lia. lia.
Qed.

Lemma nrows_flowing (b : nat) :
  nrows (flowing (grads_below x w gy b)) = nrows gy.
Proof.
  unfold grads_below, nrows. simpl.
  rewrite length_app, length_firstn, repeat_length. lia.
Qed.

Lemma slice_x (s e : Z) :
  (0 <= s <= e)%Z -> (e <= Z.of_nat (nrows x))%Z ->
  slice x s e = rows_between x s e.
Proof.
  intros Hs He. unfold slice, rows_between.
  now rewrite !bound_in_range by lia.
Qed.

Lemma slice_flowing (s e : Z) :
  (0 <= s <= e)%Z -> (e <= Z.of_nat (nrows x))%Z ->
  slice (flowing (grads_below x w gy (Z.to_nat e))) s e = rows_between gy s e.
Proof.
  intros Hs He. unfold slice. rewrite nrows_flowing, Hm.
  rewrite !bound_in_range by lia.
  unfold grads_below, rows_between. simpl. f_equal.
  apply flow_slice. unfold nrows in *. lia.
Qed.

Lemma clear_flowing (s e : Z) :
  (0 <= s <= e)%Z -> (e <= Z.of_nat (nrows x))%Z ->
  slice_assign (flowing (grads_below x w gy (Z.to_nat e))) s e
               (zeros (nrows (rows_between gy s e)) (ncols (rows_between gy s e)))
  = Ok (flowing (grads_below x w gy (Z.to_nat s))).
Proof.
  intros Hs He. unfold slice_assign. rewrite nrows_flowing, Hm.
  rewrite !bound_in_range by lia.
  assert (Hlen : nrows (rows_between gy s e) = Z.to_nat e - Z.to_nat s).
  { unfold nrows, rows_between. simpl. apply row_range_length.
    unfold nrows in *. lia. }
  assert (Hz : nrows (zeros (nrows (rows_between gy s e)) (ncols (rows_between gy s e)))
               = Z.to_nat e - Z.to_nat s).
  { unfold zeros, nrows at 1. simpl. now rewrite repeat_length. }
  rewrite Hz, Nat.eqb_refl. simpl. rewrite Nat.eqb_refl. simpl.
  unfold grads_below. simpl. f_equal. f_equal.
  rewrite Hlen. unfold nrows. apply flow_clear; [lia|].
  unfold nrows in *. lia.
Qed.

Lemma pad_zeros (s e : Z) :
  (0 <= s <= e)%Z -> (e <= Z.of_nat (nrows x))%Z ->
  slice_assign (zeros (nrows x) (ncols x)) s e (mm (rows_between gy s e) w)
  = Ok (padded x w gy s e).
Proof.
  intros Hs He. unfold slice_assign.
  assert (Hz : nrows (zeros (nrows x) (ncols x) : tensor T) = nrows x).
  { unfold zeros, nrows at 1. simpl. now rewrite repeat_length. }
  rewrite Hz, !bound_in_range by lia.
  assert (Hlen : nrows (mm (rows_between gy s e) w) = Z.to_nat e - Z.to_nat s).
  { unfold nrows, mm, rows_between. simpl. rewrite length_map.
    apply row_range_length. unfold nrows in *. lia. }
  assert (Hc : (ncols w =? ncols x) = true) by (apply Nat.eqb_eq; auto).
  rewrite Hlen, Nat.eqb_refl. simpl. rewrite Hc. simpl.
  unfold padded. f_equal.
  rewrite firstn_repeat, skipn_repeat.
  fold zrow_x.
  replace (Nat.min (Z.to_nat s) (nrows x)) with (Z.to_nat s) by lia.
  replace (Nat.max (Z.to_nat s) (Z.to_nat e)) with (Z.to_nat e) by lia.
  reflexivity.
Qed.

(** The backward functions of one group, run on the state left by the
    groups after it. *)
Lemma node_backward_below (s e : Z) :
  (0 <= s <= e)%Z -> (e <= Z.of_nat (nrows x))%Z ->
  node_backward x (flowing (grads_below x w gy (Z.to_nat e)))
                (mkNode s e (slice x s e) (transpose w))
  = Ok (flowing (grads_below x w gy (Z.to_nat s)),
        padded x w gy s e,
        mm (transpose (rows_between gy s e)) (rows_between x s e)).
Proof.
  intros Hs He. unfold node_backward.
  cbn [node_start node_end saved_x_g saved_wT]. cbv zeta.
  rewrite slice_flowing, clear_flowing by assumption. cbn [bind].
  rewrite transpose_involutive by exact Hw.
  rewrite matmul_agree by exact Hn. cbn [bind].
  rewrite slice_x by assumption.
  rewrite matmul_agree.
  2:{ unfold transpose, nrows, rows_between. simpl.
      rewrite !row_range_length; trivial; unfold nrows in *; lia. }
  cbn [bind]. rewrite pad_zeros by assumption. cbn [bind].
  now rewrite transpose_mm_transpose.
Qed.

Lemma mm_rows_app (N0 : nat) (A B : list (list T)) :
  rows (mm (mkTensor N0 (A ++ B)) w)
  = rows (mm (mkTensor N0 A) w) ++ rows (mm (mkTensor N0 B) w).
Proof.
  unfold mm. simpl. apply map_app.
Qed.

Lemma mm_rows_width (a : tensor T) :
  Forall (fun r => length r = ncols x) (rows (mm a w)).
Proof.
  rewrite Hk. apply (mm_well_formed a w).
Qed.

Lemma mm_rows_count (N0 : nat) (A : list (list T)) :
  length (rows (mm (mkTensor N0 A) w)) = length A.
Proof.
  unfold mm. simpl. apply length_map.
Qed.

(** Adding the gradient of one group to what the later groups left. *)
Lemma accumulate_x (s e : Z) :
  (0 <= s <= e)%Z -> (e <= Z.of_nat (nrows x))%Z ->
  tensor_add (x_grad (grads_below x w gy (Z.to_nat e))) (padded x w gy s e)
  = x_grad (grads_below x w gy (Z.to_nat s)).
Proof.
  intros Hs He. unfold tensor_add, pointwise, grads_below, padded.
  cbn [x_grad ncols rows]. f_equal. fold zrow_x. unfold rows_between.
  set (R2 := rows (mm (mkTensor (ncols gy)
               (row_range (Z.to_nat s) (Z.to_nat e) (rows gy))) w)).
  set (R3 := rows (mm (mkTensor (ncols gy) (skipn (Z.to_nat e) (rows gy))) w)).
  assert (HR2 : length R2 = Z.to_nat e - Z.to_nat s).
  { unfold R2. rewrite mm_rows_count. apply row_range_length.
    unfold nrows in *. lia. }
  assert (HR3 : length R3 = nrows x - Z.to_nat e).
  { unfold R3. rewrite mm_rows_count, length_skipn. unfold nrows in *. lia. }
  assert (Hrep : repeat zrow_x (Z.to_nat e)
                 = repeat zrow_x (Z.to_nat s) ++ repeat zrow_x (length R2)).
  { rewrite <- repeat_app. f_equal. lia. }
  rewrite Hrep, <- app_assoc, <- HR3.
  rewrite zip_rows_app by (now rewrite !repeat_length).
  rewrite zip_rows_app by (now rewrite repeat_length).
  unfold zrow_x.
  rewrite zip_rows_zero_zero.
  rewrite zip_rows_zero_l by apply mm_rows_width.
  rewrite zip_rows_zero_r by apply mm_rows_width.
  f_equal. unfold R2, R3. rewrite <- mm_rows_app. do 3 f_equal.
  symmetry. apply row_range_skipn. lia.
Qed.

(** The group that ends at the last row starts the accumulation. *)
Lemma first_node_grads (s : Z) :
  (0 <= s <= Z.of_nat (nrows x))%Z ->
  padded x w gy s (Z.of_nat (nrows x)) = x_grad (grads_below x w gy (Z.to_nat s))
  /\ mm (transpose (rows_between gy s (Z.of_nat (nrows x)))) (rows_between x s (Z.of_nat (nrows x)))
     = w_grad (grads_below x w gy (Z.to_nat s)).
Proof.
  intros Hs. unfold padded, grads_below, rows_between. simpl.
  rewrite Nat2Z.id, Nat.sub_diag. simpl. rewrite app_nil_r.
  assert (Hgy : row_range (Z.to_nat s) (nrows x) (rows gy) = skipn (Z.to_nat s) (rows gy)).
  { unfold row_range. apply firstn_all2. rewrite length_skipn.
    unfold nrows in *. lia. }
  assert (Hx : row_range (Z.to_nat s) (nrows x) (rows x) = skipn (Z.to_nat s) (rows x)).
  { unfold row_range. apply firstn_all2. rewrite length_skipn.
    unfold nrows. lia. }
  now rewrite Hgy, Hx.
Qed.

Lemma flowing_top :
  flowing (grads_below x w gy (nrows x)) = gy.
Proof.
  unfold grads_below. simpl. rewrite Hm, Nat.sub_diag. simpl.
  rewrite app_nil_r, <- Hm. unfold nrows. rewrite firstn_all.
  now destruct gy.
Qed.

(** The same step, with its product written on the slices of the
    group. *)
Lemma node_backward_group (s e : Z) :
  (0 <= s <= e)%Z -> (e <= Z.of_nat (nrows x))%Z ->
  node_backward x (flowing (grads_below x w gy (Z.to_nat e)))
                (mkNode s e (slice x s e) (transpose w))
  = Ok (flowing (grads_below x w gy (Z.to_nat s)),
        padded x w gy s e,
        mm (transpose (slice gy s e)) (slice x s e)).
Proof.
  intros Hs He. rewrite node_backward_below by assumption.
  rewrite (slice_in_range gy), (slice_in_range x) by (rewrite ?Hm; assumption).
  reflexivity.
Qed.

(** Walking a chain of groups moves the flowing gradient and the
    gradient of [x] from its top row to its bottom row, and adds the
    product of each group to the gradient of [w] in walking order. *)
Lemma backward_walk_accumulates (e b : Z) (nodes : list group_node) :
  descends x w e nodes b ->
  (0 <= b)%Z -> (e <= Z.of_nat (nrows x))%Z ->
  forall gw : tensor T,
    backward_walk x nodes
      (mkGrads (flowing (grads_below x w gy (Z.to_nat e)))
               (x_grad (grads_below x w gy (Z.to_nat e))) gw)
    = Ok (mkGrads (flowing (grads_below x w gy (Z.to_nat b)))
                  (x_grad (grads_below x w gy (Z.to_nat b)))
                  (tensor_sum gw
                     (map (fun n => mm (transpose (slice gy (node_start n) (node_end n)))
                                       (slice x (node_start n) (node_end n)))
                          nodes))).
Proof.
  induction 1 as [b|s e b rest Hse Hrest IH]; intros Hb He gw; [reflexivity|].
  pose proof (descends_le _ _ Hrest) as Hbs.
  cbn [backward_walk flowing x_grad w_grad].
  rewrite node_backward_group by (assumption || lia). cbn [bind].
  rewrite accumulate_x by (assumption || lia).
  rewrite IH by lia. reflexivity.
Qed.

End BackwardWalk.

(** The walk under exact arithmetic: the gradient of [w] is the product
    over the rows walked so far. *)
Section ExactWalk.
Context {T : Type} `{ScalarLaws T}.
Variables x w gy : tensor T.
Hypothesis Hw : well_formed w.
Hypothesis Hk : ncols x = ncols w.
Hypothesis Hm : nrows gy = nrows x.
Hypothesis Hn : ncols gy = nrows w.

Lemma accumulate_w (s e : Z) :
  (0 <= s <= e)%Z -> (e <= Z.of_nat (nrows x))%Z ->
  tensor_add (w_grad (grads_below x w gy (Z.to_nat e)))
             (mm (transpose (rows_between gy s e)) (rows_between x s e))
  = w_grad (grads_below x w gy (Z.to_nat s)).
Proof.
  intros Hs He. unfold grads_below, rows_between. simpl.
  rewrite tensor_add_comm_gram by reflexivity.
  rewrite <- gram_app.
  - now rewrite <- !row_range_skipn by lia.
  - rewrite !row_range_length; trivial; unfold nrows in *; lia.
Qed.

(** Walking a chain of groups moves the state from its top row to its
    bottom row. *)
Lemma backward_walk_descends (e b : Z) (nodes : list group_node) :
  descends x w e nodes b ->
  (0 <= b)%Z -> (e <= Z.of_nat (nrows x))%Z ->
  backward_walk x nodes (grads_below x w gy (Z.to_nat e))
  = Ok (grads_below x w gy (Z.to_nat b)).
Proof.
  induction 1 as [b|s e b rest Hse Hrest IH]; intros Hb He; [reflexivity|].
  pose proof (descends_le _ _ Hrest) as Hbs.
  cbn [backward_walk].
  rewrite node_backward_below by (assumption || lia). cbn [bind].
  rewrite accumulate_x, accumulate_w by (assumption || lia).
  replace (mkGrads (flowing (grads_below x w gy (Z.to_nat s)))
                   (x_grad (grads_below x w gy (Z.to_nat s)))
                   (w_grad (grads_below x w gy (Z.to_nat s))))
    with (grads_below x w gy (Z.to_nat s)) by reflexivity.
  apply IH; lia.
Qed.

End ExactWalk.

(** ** Consequences for the reference backward pass *)

Section Offsets.

Lemma total_app (a b : list Z) : total (a ++ b) = (total a + total b)%Z.
Proof.
  unfold total. induction a as [|z a IH]; simpl; [reflexivity|].
  rewrite IH. lia.
Qed.

Lemma total_nonneg (l : list Z) : non_negative l -> (0 <= total l)%Z.
Proof.
  unfold total. induction 1; simpl; lia.
Qed.

Lemma non_negative_firstn (n : nat) (l : list Z) :
  non_negative l -> non_negative (firstn n l).
Proof.
  intros Hl. unfold non_negative in *.
  rewrite <- (firstn_skipn n l) in Hl. now apply Forall_app in Hl.
Qed.

Lemma non_negative_skipn (n : nat) (l : list Z) :
  non_negative l -> non_negative (skipn n l).
Proof.
  intros Hl. unfold non_negative in *.
  rewrite <- (firstn_skipn n l) in Hl. now apply Forall_app in Hl.
Qed.

(** Boundaries are non-decreasing and end at the total. *)
Lemma offset_bounds (sizes : list Z) (g : nat) :
  non_negative sizes ->
  (0 <= offset sizes g <= offset sizes (S g))%Z
  /\ (offset sizes (S g) <= total sizes)%Z.
Proof.
  intros Hnn. unfold offset.
  pose proof (total_nonneg _ (non_negative_firstn g _ Hnn)) as H0.
  assert (Hstep : firstn (S g) sizes = firstn g sizes ++ firstn 1 (skipn g sizes)).
  { rewrite <- (firstn_skipn g (firstn (S g) sizes)).
    rewrite firstn_firstn, Nat.min_l by lia. f_equal.
    rewrite skipn_firstn_comm. f_equal. lia. }
  pose proof (total_nonneg _ (non_negative_firstn 1 _ (non_negative_skipn g _ Hnn))) as H1.
  pose proof (total_nonneg _ (non_negative_skipn (S g) _ Hnn)) as H2.
  assert (Htot : total sizes
                 = (total (firstn (S g) sizes) + total (skipn (S g) sizes))%Z)
    by (now rewrite <- total_app, firstn_skipn).
  rewrite Htot, Hstep, total_app. lia.
Qed.

Lemma offset_all (sizes : list Z) : offset sizes (length sizes) = total sizes.
Proof.
  unfold offset. now rewrite firstn_all.
Qed.

End Offsets.

Section BackwardResults.
Context {T : Type} `{ScalarLaws T}.

Lemma shape_eqb_true (a b : tensor T) :
  nrows a = nrows b -> ncols a = ncols b -> shape_eqb a b = true.
Proof.
  intros Hr Hc. unfold shape_eqb. now rewrite Hr, Hc, !Nat.eqb_refl.
Qed.

Lemma grads_bottom (x w gy : tensor T) :
  ncols x = ncols w ->
  x_grad (grads_below x w gy 0) = mm gy w
  /\ w_grad (grads_below x w gy 0) = mm (transpose gy) x.
Proof.
  intros Hk. unfold grads_below. split; simpl.
  - unfold mm. now rewrite Hk.
  - now destruct gy, x.
Qed.

(** With exact arithmetic, on a partition of at least one row the
    backward pass returns the two full products. *)
Lemma backward_valid (x w gy : tensor T) (sizes : list Z) :
  well_formed w -> ncols x = ncols w ->
  nrows gy = nrows x -> ncols gy = nrows w ->
  non_negative sizes -> total sizes = Z.of_nat (nrows x) ->
  0 < nrows x ->
  compute_reference_backward x w sizes gy
  = Ok (mm gy w, mm (transpose gy) x).
Proof.
  intros Hw Hk Hm Hn Hnn Hsum Hpos.
  unfold compute_reference_backward.
  rewrite forward_traced_filled by exact Hk. cbn [bind].
  unfold backward.
  rewrite shape_eqb_true by (rewrite ?nrows_filled; assumption).
  cbn [negb].
  pose proof (expected_nodes_descends x w sizes 0%Z (Z.le_refl 0)) as Hd.
  rewrite Z.add_0_l, total_positive, Hsum in Hd by exact Hnn.
  inversion Hd as [b Hb Hnil|s e b rest Hse Hrest He Hnodes Hb]; [lia|].
  subst b.
  pose proof (descends_le _ _ Hrest) as Hs0.
  pose proof (node_backward_below x w gy Hw Hk Hm Hn s (Z.of_nat (nrows x))) as Hnb.
  rewrite Nat2Z.id, (flowing_top x w gy Hm Hn) in Hnb.
  rewrite Hnb by lia. cbn [bind].
  destruct (first_node_grads x w gy Hk Hm Hn s) as [Hgx Hgw]; [lia|].
  rewrite Hgx, Hgw.
  replace (mkGrads (flowing (grads_below x w gy (Z.to_nat s)))
                   (x_grad (grads_below x w gy (Z.to_nat s)))
                   (w_grad (grads_below x w gy (Z.to_nat s))))
    with (grads_below x w gy (Z.to_nat s)) by reflexivity.
  rewrite (backward_walk_descends x w gy Hw Hk Hm Hn _ _ _ Hrest) by lia.
  cbn [bind]. change (Z.to_nat 0) with 0.
  destruct (grads_bottom x w gy Hk) as [-> ->]. reflexivity.
Qed.

(** With no positive entry nothing is recorded, and [backward] has
    nothing to differentiate. *)
Lemma backward_nothing_recorded (x w gy : tensor T) (sizes : list Z) :
  ncols x = ncols w -> positive_total sizes = 0%Z ->
  nrows gy = nrows x -> ncols gy = nrows w ->
  compute_reference_backward x w sizes gy
  = Raise (RuntimeError
             "element 0 of tensors does not require grad and does not have a grad_fn").
Proof.
  intros Hk Hpt Hm Hn. unfold compute_reference_backward.
  rewrite forward_traced_filled by exact Hk. cbn [bind]. unfold backward.
  rewrite shape_eqb_true by (rewrite ?nrows_filled; assumption).
  cbn [negb].
  assert (Hnone : forall s, expected_nodes x w sizes s = []).
  { revert Hpt. unfold positive_total.
    induction sizes as [|z rest IH]; intros Hpt s; simpl in *; [reflexivity|].
    destruct (Z.ltb_spec 0 z) as [Hz|Hz]; simpl in *.
    - pose proof (positive_total_nonneg rest) as Hr.
      unfold positive_total in Hr. lia.
    - now apply IH. }
  now rewrite Hnone.
Qed.

End BackwardResults.

(** ** The gradient of [w] as the backward pass adds it up *)

Section RecordedGroups.
Context {T : Type} `{Scalar T}.
Variables x w : tensor T.

Lemma offset_app_length (pre suf : list Z) :
  offset (pre ++ suf) (length pre) = total pre.
Proof.
  unfold offset. rewrite firstn_app, firstn_all, Nat.sub_diag. simpl.
  now rewrite app_nil_r.
Qed.

Lemma expected_nodes_from (suf : list Z) :
  forall pre,
    non_negative suf ->
    expected_nodes x w suf (total pre)
    = map (recorded_group x w (pre ++ suf))
          (filter (fun g => (0 <? nth g (pre ++ suf) 0)%Z)
                  (seq (length pre) (length suf))).
Proof.
  induction suf as [|z rest IH]; intros pre Hnn; [reflexivity|].
  inversion Hnn as [|z' rest' Hz Hrest]; subst.
  assert (Hsplit : pre ++ z :: rest = (pre ++ [z]) ++ rest)
    by (now rewrite <- app_assoc).
  assert (Hlen : length (pre ++ [z]) = S (length pre))
    by (rewrite length_app; simpl; lia).
  assert (Htot : total (pre ++ [z]) = (total pre + z)%Z)
    by (rewrite total_app; unfold total; simpl; lia).
  assert (Hlo : offset (pre ++ z :: rest) (length pre) = total pre)
    by apply offset_app_length.
  assert (Hhi : offset (pre ++ z :: rest) (S (length pre)) = (total pre + z)%Z)
    by (rewrite Hsplit, <- Hlen, offset_app_length; exact Htot).
  specialize (IH (pre ++ [z]) Hrest).
  rewrite <- Hsplit, Hlen, Htot in IH.
  cbn [expected_nodes length seq filter].
  rewrite app_nth2, Nat.sub_diag by lia. cbn [nth].
  destruct (Z.ltb_spec 0 z) as [Hpos|Hnp].
  - cbn [map]. unfold recorded_group at 1. rewrite Hlo, Hhi.
    f_equal. exact IH.
  - replace z with 0%Z in IH by lia. rewrite Z.add_0_r in IH.
    replace z with 0%Z by lia. exact IH.
Qed.

(** On non-negative sizes the loop records the executed groups, each
    with its prefix-sum boundaries. *)
Lemma expected_nodes_groups (sizes : list Z) :
  non_negative sizes ->
  expected_nodes x w sizes 0
  = map (recorded_group x w sizes) (executed_groups sizes).
Proof.
  intros Hnn. exact (expected_nodes_from sizes [] Hnn).
Qed.

End RecordedGroups.

Section Accumulated.
Context {T : Type} `{RoundingLaws T}.

Lemma tabulate_has_shape (n k : nat) (F : nat -> nat -> T) :
  has_shape (tabulate n k F) n k.
Proof.
  unfold has_shape, tabulate, nrows, well_formed. simpl.
  rewrite length_map, length_seq. repeat split.
  apply Forall_forall. intros r Hr. apply in_map_iff in Hr.
  destruct Hr as [i [<- _]]. now rewrite length_map, length_seq.
Qed.

Lemma group_product_table (x gy : tensor T) (sizes : list Z) (g : nat) :
  exists F, group_product x gy sizes g = tabulate (ncols gy) (ncols x) F.
Proof.
  unfold group_product. rewrite mm_transpose_l. eexists. reflexivity.
Qed.

Lemma tensor_sum_table (n k : nat) (l : list (tensor T)) :
  Forall (fun t => exists F, t = tabulate n k F) l ->
  forall init, (exists F, init = tabulate n k F) ->
               exists F, tensor_sum init l = tabulate n k F.
Proof.
  unfold tensor_sum.
  induction 1 as [|t l [F ->] _ IH]; intros init [F0 ->]; simpl.
  - now exists F0.
  - apply IH. unfold tensor_add. rewrite pointwise_tabulate. eexists. reflexivity.
Qed.

Lemma grad_w_last_first_shape (x gy gw : tensor T) (sizes : list Z) :
  grad_w_last_first x gy sizes = Some gw ->
  has_shape gw (ncols gy) (ncols x).
Proof.
  unfold grad_w_last_first.
  destruct (rev (executed_groups sizes)) as [|last earlier]; [discriminate|].
  intros Hgw. injection Hgw as <-.
  destruct (tensor_sum_table (ncols gy) (ncols x)
              (map (group_product x gy sizes) earlier)) with
    (init := group_product x gy sizes last) as [F ->].
  - apply Forall_forall. intros t Ht. apply in_map_iff in Ht.
    destruct Ht as [g [<- _]]. apply group_product_table.
  - apply group_product_table.
  - apply tabulate_has_shape.
Qed.

(** On a partition of at least one row the backward pass returns the
    full product for [x] and, for [w], the products of the executed
    groups added from the last group to the first. *)
Lemma backward_accumulates (x w gy : tensor T) (sizes : list Z) :
  well_formed w -> ncols x = ncols w ->
  nrows gy = nrows x -> ncols gy = nrows w ->
  non_negative sizes -> total sizes = Z.of_nat (nrows x) ->
  0 < nrows x ->
  exists gw,
    grad_w_last_first x gy sizes = Some gw
    /\ compute_reference_backward x w sizes gy = Ok (mm gy w, gw).
Proof.
  intros Hw Hk Hm Hn Hnn Hsum Hpos.
  unfold compute_reference_backward.
  rewrite forward_traced_filled by exact Hk. cbn [bind].
  unfold backward.
  rewrite shape_eqb_true by (rewrite ?nrows_filled; assumption).
  cbn [negb].
  pose proof (expected_nodes_descends x w sizes 0%Z (Z.le_refl 0)) as Hd.
  rewrite Z.add_0_l, total_positive, Hsum in Hd by exact Hnn.
  rewrite expected_nodes_groups in Hd |- * by exact Hnn.
  rewrite <- map_rev in Hd |- *.
  unfold grad_w_last_first.
  destruct (rev (executed_groups sizes)) as [|last earlier].
  - inversion Hd. lia.
  - eexists. split; [reflexivity|].
    cbn [map] in Hd |- *. unfold recorded_group at 1 in Hd.
    unfold recorded_group at 1. unfold group_product at 1. unfold group_slice.
    assert (Htop : offset sizes (S last) = Z.of_nat (nrows x))
      by (inversion Hd; congruence).
    rewrite Htop in Hd |- *.
    assert (Hlast : (0 <= offset sizes last <= Z.of_nat (nrows x))%Z)
      by (inversion Hd; assumption).
    assert (Hrest : descends x w (offset sizes last)
                      (map (recorded_group x w sizes) earlier) 0)
      by (inversion Hd; assumption).
    pose proof (descends_le _ _ Hrest) as Hs0.
    pose proof (node_backward_group x w gy Hw Hk Hm Hn (offset sizes last)
                  (Z.of_nat (nrows x))) as Hnb.
    rewrite Nat2Z.id, (flowing_top x w gy Hm Hn) in Hnb.
    rewrite Hnb by lia. cbn [bind].
    destruct (first_node_grads x w gy Hk Hm Hn (offset sizes last)) as [Hgx _]; [lia|].
    rewrite Hgx.
    rewrite (backward_walk_accumulates x w gy Hw Hk Hm Hn _ _ _ Hrest) by lia.
    cbn [bind x_grad w_grad]. change (Z.to_nat 0) with 0.
    destruct (grads_bottom x w gy Hk) as [-> _].
    rewrite map_map. reflexivity.
Qed.

End Accumulated.

Section GroupSums.
Context {T : Type} `{ScalarLaws T}.

(** The sum over the first [n] groups is the product restricted to the
    rows before [offset n]. *)
Lemma group_sum_prefix (x gy : tensor T) (sizes : list Z) (n : nat) :
  nrows gy = nrows x ->
  non_negative sizes -> total sizes = Z.of_nat (nrows x) ->
  tensor_sum (zeros (ncols gy) (ncols x))
    (map (fun g => mm (transpose (group_slice gy sizes g)) (group_slice x sizes g))
         (seq 0 n))
  = mm (transpose (mkTensor (ncols gy) (firstn (Z.to_nat (offset sizes n)) (rows gy))))
       (mkTensor (ncols x) (firstn (Z.to_nat (offset sizes n)) (rows x))).
Proof.
  intros Hm Hnn Hsum. induction n as [|n IH].
  - simpl. symmetry. apply gram_nil.
  - rewrite seq_S, map_app. unfold tensor_sum in *.
    rewrite fold_left_app, IH. simpl.
    destruct (offset_bounds sizes n Hnn) as [Hlo Hhi].
    unfold group_slice.
    rewrite !slice_in_range by (rewrite ?Hm; lia).
    unfold rows_between. rewrite <- gram_app.
    + now rewrite <- !firstn_row_range by lia.
    + rewrite !length_firstn. unfold nrows in Hm. lia.
Qed.

(** With exact arithmetic the sum over the groups, taken in group
    order from zero, is the full product. *)
Lemma grad_w_by_groups_full (x gy : tensor T) (sizes : list Z) :
  nrows gy = nrows x ->
  non_negative sizes -> total sizes = Z.of_nat (nrows x) ->
  grad_w_by_groups x gy sizes = mm (transpose gy) x.
Proof.
  intros Hm Hnn Hsum. unfold grad_w_by_groups.
  rewrite group_sum_prefix by assumption.
  rewrite offset_all, Hsum, Nat2Z.id.
  rewrite <- Hm at 1. unfold nrows. rewrite !firstn_all.
  now destruct gy, x.
Qed.

End GroupSums.

Section GroupedBackward.
Context {T : Type} `{RoundingLaws T}.

(** C2, amended: on a partition of [M >= 1] rows, for element arithmetic
    in which adding zero changes nothing and products commute (sums may
    round), the reference backward pass returns [grad_x] of shape
    [(M, K)] and [grad_w] of shape [(N, K)], with
    [grad_x[s:e] = grad_y[s:e] @ w] for every group, and [grad_w] the
    products [grad_y[s:e].T @ x[s:e]] of the non-empty groups added one
    by one from the last group to the first. *)
Theorem backward_group_adjoint (x w gy : tensor T) (sizes : list Z) (M K N : nat) :
  has_shape x M K -> has_shape w N K -> has_shape gy M N ->
  non_negative sizes -> total sizes = Z.of_nat M ->
  0 < M ->
  exists gx gw,
    compute_reference_backward x w sizes gy = Ok (gx, gw)
    /\ has_shape gx M K /\ has_shape gw N K
    /\ (forall g, g < length sizes ->
          matmul (group_slice gy sizes g) w = Ok (group_slice gx sizes g))
    /\ grad_w_last_first x gy sizes = Some gw.
Proof.
  intros [Hxm [Hxk _]] [Hwn [Hwk Hwf]] [Hgm [Hgn _]] Hnn Hsum Hpos.
  destruct (backward_accumulates x w gy sizes) as [gw [Hgw Hback]];
    try congruence; try assumption; try lia.
  exists (mm gy w), gw.
  split; [|split; [|split; [|split]]].
  - exact Hback.
  - rewrite <- Hgm, <- Hwk. apply mm_has_shape.
  - rewrite <- Hgn, <- Hxk. now apply grad_w_last_first_shape with (sizes := sizes).
  - intros g _. unfold group_slice. rewrite slice_mm.
    apply matmul_agree. simpl. congruence.
  - exact Hgw.
Qed.

(** C10, amended: for every partition the forward pass is the plain
    product [x @ w.T], so two partitions of the same rows give the same
    output.  For partitions of [M >= 1] rows, and element arithmetic in
    which adding zero changes nothing and products commute (sums may
    round), the backward pass returns [grad_x = grad_y @ w] for both
    partitions, and for each partition the [grad_w] that adds the
    products of its own non-empty groups from the last group to the
    first. *)
Theorem grouping_independent (x w gy : tensor T) (sizes sizes' : list Z)
        (M K N : nat) :
  has_shape x M K -> has_shape w N K -> has_shape gy M N ->
  non_negative sizes -> total sizes = Z.of_nat M ->
  non_negative sizes' -> total sizes' = Z.of_nat M ->
  compute_reference_forward x w sizes = matmul x (transpose w)
  /\ compute_reference_forward x w sizes' = compute_reference_forward x w sizes
  /\ (0 < M ->
      exists gx gw gw',
        compute_reference_backward x w sizes gy = Ok (gx, gw)
        /\ compute_reference_backward x w sizes' gy = Ok (gx, gw')
        /\ matmul gy w = Ok gx
        /\ grad_w_last_first x gy sizes = Some gw
        /\ grad_w_last_first x gy sizes' = Some gw').
Proof.
  intros [Hxm [Hxk _]] [Hwn [Hwk Hwf]] [Hgm [Hgn _]] Hnn Hsum Hnn' Hsum'.
  assert (Hk : ncols x = ncols w) by congruence.
  assert (Hf : forall l, non_negative l -> total l = Z.of_nat M ->
                         compute_reference_forward x w l = Ok (mm x (transpose w)))
    by (intros l Hl Ht; apply forward_valid; congruence).
  split; [|split].
  - rewrite Hf by assumption. symmetry. apply matmul_agree.
    now rewrite nrows_transpose.
  - now rewrite !Hf.
  - intros Hpos.
    destruct (backward_accumulates x w gy sizes) as [gw [Hgw Hback]];
      try congruence; try assumption; try lia.
    destruct (backward_accumulates x w gy sizes') as [gw' [Hgw' Hback']];
      try congruence; try assumption; try lia.
    exists (mm gy w), gw, gw'. repeat split; try assumption.
    apply matmul_agree. congruence.
Qed.

End GroupedBackward.

Section ExactGradients.
Context {T : Type} `{ScalarLaws T}.

(** With exact arithmetic the order of the additions does not matter:
    on a partition of at least one row the gradient of [w] is the full
    product [grad_y.T @ x], which is also the sum over the groups in
    group order and the sum from the last group to the first. *)
Lemma exact_gradients (x w gy : tensor T) (sizes : list Z) (M K N : nat) :
  has_shape x M K -> has_shape w N K -> has_shape gy M N ->
  non_negative sizes -> total sizes = Z.of_nat M ->
  0 < M ->
  compute_reference_backward x w sizes gy = Ok (mm gy w, mm (transpose gy) x)
  /\ grad_w_by_groups x gy sizes = mm (transpose gy) x
  /\ grad_w_last_first x gy sizes = Some (mm (transpose gy) x).
Proof.
  intros [Hxm [Hxk _]] [Hwn [Hwk Hwf]] [Hgm [Hgn _]] Hnn Hsum Hpos.
  assert (Hback : compute_reference_backward x w sizes gy
                  = Ok (mm gy w, mm (transpose gy) x))
    by (apply backward_valid; try congruence; try assumption; lia).
  split; [exact Hback|]. split.
  - apply grad_w_by_groups_full; congruence.
  - destruct (backward_accumulates x w gy sizes) as [gw [Hgw Hback']];
      try assumption; try lia; congruence.
Qed.

End ExactGradients.

(** ** Inputs outside the contract *)

Section Unchecked.
Context {T : Type} `{Scalar T}.

(** With disagreeing inner extents the first executed group raises. *)
Lemma forward_loop_mismatch (x w : tensor T) (sizes : list Z) :
  ncols x <> ncols w ->
  Exists (fun z => (0 < z)%Z) sizes ->
  forall m_start result tape,
    forward_loop x w sizes m_start result tape
    = Raise (RuntimeError
               (shapes_cannot_be_multiplied
                  (slice x m_start (m_start + first_positive sizes))
                  (transpose w))).
Proof.
  intros Hk Hex. unfold first_positive.
  induction Hex as [z rest Hz|z rest _ IH];
    intros m_start result tape; simpl.
  - destruct (Z.ltb_spec 0 z) as [_|Hn]; [|lia].
    unfold matmul. rewrite nrows_transpose. simpl.
    destruct (Nat.eqb_spec (ncols x) (ncols w)); [contradiction|reflexivity].
  - destruct (Z.ltb_spec 0 z) as [_|_]; [|apply IH].
    unfold matmul. rewrite nrows_transpose. simpl.
    destruct (Nat.eqb_spec (ncols x) (ncols w)); [contradiction|reflexivity].
Qed.

Lemma positive_total_filter (sizes : list Z) :
  positive_total (filter (fun z => (0 <=? z)%Z) sizes) = positive_total sizes.
Proof.
  unfold positive_total. induction sizes as [|z rest IH]; simpl; [reflexivity|].
  destruct (Z.leb_spec 0 z), (Z.ltb_spec 0 z); simpl; try lia.
  - destruct (Z.ltb_spec 0 z); simpl; lia.
  - destruct (Z.ltb_spec 0 z); simpl; lia.
Qed.

(** C6, amended: the forward pass checks neither the total of the sizes
    nor the shapes itself.  Disagreeing inner extents make the matrix
    product of the first executed group raise a [RuntimeError]; with
    agreeing inner extents the pass returns normally whatever the total
    is, with the rows claimed by the positive sizes computed and the
    other rows left zero. *)
Theorem forward_shape_errors (x w : tensor T) (sizes : list Z) :
  (ncols x <> ncols w -> Exists (fun z => (0 < z)%Z) sizes ->
   exists msg, compute_reference_forward x w sizes = Raise (RuntimeError msg))
  /\ (ncols x = ncols w ->
      compute_reference_forward x w sizes
      = Ok (filled x w (Z.to_nat (positive_total sizes)))).
Proof.
  split.
  - intros Hk Hex. eexists. unfold compute_reference_forward, forward_traced.
    now rewrite forward_loop_mismatch.
  - apply forward_filled.
Qed.

(** C7, amended: a negative entry is skipped like a zero entry.  With
    agreeing inner extents the pass returns normally, and returns what
    it returns once the negative entries are removed. *)
Theorem negative_sizes_skipped (x w : tensor T) (sizes : list Z) :
  Exists (fun z => (z < 0)%Z) sizes ->
  ncols x = ncols w ->
  exists y,
    compute_reference_forward x w sizes = Ok y
    /\ compute_reference_forward x w (filter (fun z => (0 <=? z)%Z) sizes) = Ok y.
Proof.
  intros _ Hk. exists (filled x w (Z.to_nat (positive_total sizes))).
  rewrite !forward_filled by exact Hk.
  now rewrite positive_total_filter.
Qed.

End Unchecked.

(** ** The sweep *)

Section SweepResults.
Context {T : Type} `{Compare T}.
Variable grouped_gemm_forward :
  tensor T -> tensor T -> list Z -> outcome (tensor T).
Variable grouped_gemm_backward :
  tensor T -> tensor T -> tensor T -> list Z -> outcome (tensor T * tensor T).
Variable randn : nat -> nat -> nat -> nat -> outcome (tensor T).

Let row_of := verdict grouped_gemm_forward grouped_gemm_backward randn.
Let rows_of := verdicts grouped_gemm_forward grouped_gemm_backward randn.
Let loop := sweep_loop grouped_gemm_forward grouped_gemm_backward randn.

Lemma snd_lbind {A B : Type} (m : logged T A) (k : A -> logged T B) (a : A) :
  snd m = Ok a -> snd (lbind m k) = snd (k a).
Proof.
  intros Hm. unfold lbind. now rewrite Hm.
Qed.

(** One iteration never raises: it always yields the row. *)
Lemma run_config_row (config_idx : nat) (c : config) :
  snd (run_config grouped_gemm_forward grouped_gemm_backward randn config_idx c)
  = Ok (row_of config_idx c).
Proof.
  unfold row_of, verdict, run_config.
  destruct c as [[[G M] K] N].
  rewrite (snd_lbind _ _ tt) by reflexivity.
  rewrite (snd_lbind _ _ tt) by reflexivity.
  destruct (snd (config_body _ _ _ config_idx (G, M, K, N)))
    as [[[forward_close grad_x_close] grad_w_close]|e].
  - rewrite (snd_lbind _ _ tt) by reflexivity.
    rewrite (snd_lbind _ _ tt); [reflexivity|].
    now destruct (forward_close && (grad_x_close && grad_w_close)).
  - rewrite (snd_lbind _ _ tt) by reflexivity.
    rewrite (snd_lbind _ _ tt) by reflexivity.
    rewrite (snd_lbind _ _ tt) by reflexivity.
    reflexivity.
Qed.

Lemma sweep_loop_rows (configs : list config) :
  forall config_idx results,
    snd (loop configs config_idx results)
    = Ok (results ++ rows_of configs config_idx).
Proof.
  induction configs as [|c rest IH]; intros config_idx results.
  - simpl. now rewrite app_nil_r.
  - unfold loop. cbn [sweep_loop].
    rewrite (snd_lbind _ _ _ (run_config_row config_idx c)).
    fold loop. rewrite IH, <- app_assoc. reflexivity.
Qed.

Lemma log_summary_returns (results : list result_row) :
  snd (log_summary (T:=T) results) = Ok tt.
Proof.
  induction results as [|[[[i o] f] b] rest IH]; [reflexivity|].
  cbn [log_summary].
  rewrite (snd_lbind _ _ tt) by reflexivity.
  rewrite (snd_lbind _ _ tt) by reflexivity.
  rewrite (snd_lbind _ _ tt) by reflexivity.
  exact IH.
Qed.

Lemma test_configs_returns (configs : list config) :
  snd (test_configs grouped_gemm_forward grouped_gemm_backward randn configs)
  = Ok (forallb overall_success (rows_of configs 0)).
Proof.
  unfold test_configs.
  rewrite (snd_lbind _ _ _ (sweep_loop_rows configs 0 [])).
  rewrite (snd_lbind _ _ tt) by reflexivity.
  rewrite (snd_lbind _ _ tt) by apply log_summary_returns.
  reflexivity.
Qed.

Lemma verdicts_length (configs : list config) :
  forall config_idx, length (rows_of configs config_idx) = length configs.
Proof.
  induction configs as [|c rest IH]; intros config_idx; simpl; [reflexivity|].
  f_equal. apply IH.
Qed.

Lemma verdicts_nth (configs : list config) :
  forall config_idx i c,
    nth_error configs i = Some c ->
    nth_error (rows_of configs config_idx) i = Some (row_of (config_idx + i) c).
Proof.
  induction configs as [|c0 rest IH]; intros config_idx [|i] c Hc;
    simpl in *; try discriminate.
  - injection Hc as ->. now rewrite Nat.add_0_r.
  - rewrite <- Nat.add_succ_comm. now apply IH.
Qed.

(** C9: in the sweep an exception raised by one configuration is
    caught and that configuration is recorded as failed on all three
    verdicts; every configuration gets its row whatever happened to
    the ones before it; and the sweep returns [True] exactly when
    every row passed. *)
Theorem sweep_isolates_failures (configs : list config) :
  exists rows,
    snd (sweep_loop grouped_gemm_forward grouped_gemm_backward randn configs 0 [])
    = Ok rows
    /\ length rows = length configs
    /\ (forall i c,
          nth_error configs i = Some c ->
          match snd (config_body grouped_gemm_forward grouped_gemm_backward randn
                                 i c) with
          | Raise _ => nth_error rows i = Some (i + 1, false, false, false)
          | Ok (forward_close, grad_x_close, grad_w_close) =>
              nth_error rows i
              = Some (i + 1,
                      forward_close && (grad_x_close && grad_w_close),
                      forward_close,
                      grad_x_close && grad_w_close)
          end)
    /\ exists passed,
        snd (test_configs grouped_gemm_forward grouped_gemm_backward randn configs)
        = Ok passed
        /\ (passed = true <-> Forall (fun r => overall_success r = true) rows).
Proof.
  exists (rows_of configs 0). split; [|split; [|split]].
  - apply (sweep_loop_rows configs 0 []).
  - apply verdicts_length.
  - intros i c Hc. pose proof (verdicts_nth configs 0 i c Hc) as Hrow.
    simpl in Hrow. unfold row_of, verdict in Hrow.
    destruct (snd (config_body _ _ _ i c)) as [[[f gx] gw]|e]; exact Hrow.
  - exists (forallb overall_success (rows_of configs 0)). split.
    + apply test_configs_returns.
    + rewrite forallb_forall, Forall_forall. reflexivity.
Qed.

End SweepResults.

(** ** The comparison *)

Section FlatIndexing.
Context {A : Type}.

Lemma concat_length_uniform (k : nat) (rs : list (list A)) :
  Forall (fun r => length r = k) rs -> length (concat rs) = length rs * k.
Proof.
  induction 1 as [|r rs Hr _ IH]; simpl; [reflexivity|].
  rewrite length_app, IH, Hr. reflexivity.
Qed.

(** Row-major position [i] of a block of width [k] is column
    [i mod k] of row [i / k]. *)
Lemma concat_nth_uniform (k : nat) (rs : list (list A)) :
  0 < k -> Forall (fun r => length r = k) rs ->
  forall i,
    nth_error (concat rs) i
    = match nth_error rs (i / k) with
      | Some r => nth_error r (i mod k)
      | None => None
      end.
Proof.
  intros Hk. induction 1 as [|r rs Hr _ IH]; intros i; simpl.
  - destruct i, (_ / k); reflexivity.
  - destruct (Nat.lt_ge_cases i k) as [Hi|Hi].
    + rewrite Nat.div_small, Nat.mod_small by exact Hi. simpl.
      apply nth_error_app1. now rewrite Hr.
    + rewrite nth_error_app2 by (now rewrite Hr). rewrite Hr, IH.
      assert (Hd : i / k = S ((i - k) / k)).
      { replace i with (1 * k + (i - k)) at 1 by lia.
        now rewrite Nat.div_add_l by lia. }
      assert (Hmd : i mod k = (i - k) mod k).
      { replace i with ((i - k) + 1 * k) at 1 by lia.
        apply Nat.Div0.mod_add. }
      now rewrite Hd, Hmd.
Qed.

End FlatIndexing.

Lemma concat_zip_rows {A B C : Type} (f : A -> B -> C)
      (ra : list (list A)) (rb : list (list B)) (k : nat) :
  Forall (fun r => length r = k) ra -> Forall (fun r => length r = k) rb ->
  length ra = length rb ->
  concat (zip_rows f ra rb)
  = map (fun q => f (fst q) (snd q)) (combine (concat ra) (concat rb)).
Proof.
  intros Ha. revert rb. unfold zip_rows.
  induction Ha as [|r ra Hr _ IH]; intros [|r' rb] Hb Hlen;
    simpl in *; try discriminate; [reflexivity|].
  inversion Hb as [|? ? Hr' Hb']; subst.
  rewrite combine_app by congruence.
  rewrite map_app. f_equal. apply IH; [assumption|now injection Hlen].
Qed.

Section Analysis.
Context {T : Type} `{Compare T}.

Lemma broadcast_extent_same (n : nat) : broadcast_extent n n = Some n.
Proof.
  unfold broadcast_extent. now rewrite Nat.eqb_refl.
Qed.

Lemma expand_same (t : tensor T) (m k : nat) :
  has_shape t m k -> expand m k t = t.
Proof.
  intros [Hm [Hk Hwf]]. destruct t as [c rs].
  unfold expand, nrows, well_formed in *. simpl in *. subst c. f_equal.
  assert (Hrows : map (expand_list k) rs = rs).
  { rewrite <- (map_id rs) at 2. apply map_ext_in. intros r Hr.
    unfold expand_list. rewrite Forall_forall in Hwf.
    now rewrite (Hwf r Hr), Nat.eqb_refl. }
  rewrite Hrows. unfold expand_list. now rewrite Hm, Nat.eqb_refl.
Qed.

Lemma broadcast_same (a e : tensor T) (m k : nat) :
  has_shape a m k -> has_shape e m k -> broadcast_tensors a e = Ok (a, e).
Proof.
  intros Ha He. unfold broadcast_tensors.
  destruct Ha as [Ham [Hak Hawf]], He as [Hem [Hek Hewf]].
  rewrite Ham, Hem, Hak, Hek, !broadcast_extent_same.
  rewrite !expand_same by (repeat split; assumption). reflexivity.
Qed.

Lemma flat_pointwise {C : Type} (f : T -> T -> C) (a e : tensor T) (m k : nat) :
  has_shape a m k -> has_shape e m k ->
  flat (pointwise f a e)
  = map (fun q => f (fst q) (snd q)) (element_pairs a e).
Proof.
  intros [Ham [Hak Hawf]] [Hem [Hek Hewf]].
  unfold flat, pointwise, element_pairs, flat. simpl.
  apply concat_zip_rows with (k := k).
  - unfold well_formed in Hawf. now rewrite Hak in Hawf.
  - unfold well_formed in Hewf. now rewrite Hek in Hewf.
  - unfold nrows in *. congruence.
Qed.

Lemma flat_length (t : tensor T) (m k : nat) :
  has_shape t m k -> length (flat t) = m * k.
Proof.
  intros [Hm [Hk Hwf]]. unfold flat.
  unfold well_formed in Hwf. rewrite Hk in Hwf.
  rewrite (concat_length_uniform _ _ Hwf). unfold nrows in Hm. now rewrite Hm.
Qed.

Lemma flat_map_tensor (f : T -> T) (t : tensor T) :
  flat (map_tensor f t) = map f (flat t).
Proof.
  unfold flat, map_tensor. simpl. symmetry. apply concat_map.
Qed.

(** The differences, in row-major order. *)
Lemma abs_difference_same (a e : tensor T) (m k : nat) :
  has_shape a m k -> has_shape e m k ->
  exists diff,
    abs_difference a e = Ok diff
    /\ flat diff
       = map (fun q => absolute (sub (fst q) (snd q))) (element_pairs a e).
Proof.
  intros Ha He. unfold abs_difference.
  rewrite (broadcast_same _ _ _ _ Ha He). cbn [bind fst snd].
  eexists. split; [reflexivity|].
  rewrite flat_map_tensor, (flat_pointwise sub _ _ _ _ Ha He), map_map. reflexivity.
Qed.

Lemma item_at_flat (t : tensor T) (m k i : nat) :
  has_shape t m k -> 0 < k ->
  forall v, nth_error (flat t) i = Some v ->
            item_at t (i / k, i mod k) = Ok v.
Proof.
  intros [Hm [Hk Hwf]] Hpos v Hv. unfold item_at, flat in *. simpl.
  unfold well_formed in Hwf. rewrite Hk in Hwf.
  rewrite (concat_nth_uniform _ _ Hpos Hwf) in Hv.
  destruct (nth_error (rows t) (i / k)) as [r|]; [|discriminate].
  now rewrite Hv.
Qed.

Lemma nth_error_combine {A B : Type} (la : list A) (lb : list B) :
  forall i a b,
    nth_error (combine la lb) i = Some (a, b) ->
    nth_error la i = Some a /\ nth_error lb i = Some b.
Proof.
  revert lb. induction la as [|a0 la IH]; intros [|b0 lb] [|i] a b Hi;
    simpl in *; try discriminate.
  - injection Hi as -> ->. auto.
  - now apply IH.
Qed.

Lemma lbind_lift_ok {A B : Type} (a : A) (k : A -> logged T B) :
  lbind (lift (Ok a)) k = k a.
Proof.
  unfold lbind, lift. simpl. now destruct (k a).
Qed.

Lemma lbind_logging {B : Type} (l : level) (m : message T)
      (k : unit -> logged T B) :
  lbind (logging l m) k = ((l, m) :: fst (k tt), snd (k tt)).
Proof.
  reflexivity.
Qed.

Lemma allclose_same (a e : tensor T) (rtol atol : T) (m k : nat) :
  has_shape a m k -> has_shape e m k ->
  allclose a e rtol atol
  = Ok (forallb (fun q => isclose rtol atol (fst q) (snd q)) (element_pairs a e)).
Proof.
  intros Ha He. unfold allclose.
  rewrite (broadcast_same _ _ _ _ Ha He). cbn [bind fst snd].
  rewrite (flat_pointwise (isclose rtol atol) _ _ _ _ Ha He).
  f_equal. induction (element_pairs a e) as [|q l IH]; simpl; [reflexivity|].
  now rewrite IH.
Qed.

End Analysis.

Section Maximum.
Context {T : Type} `{CompareLaws T}.

Lemma replaces_self (v : T) : replaces v v = false.
Proof.
  unfold replaces. rewrite ltb_irreflexive.
  now destruct (is_nan v).
Qed.

(** What did not beat the old maximum does not beat its successor. *)
Lemma replaces_carries (u v b : T) :
  replaces u b = false -> replaces v b = true -> replaces u v = false.
Proof.
  unfold replaces. intros Hu Hv.
  destruct (is_nan b); simpl in *; [discriminate|].
  destruct (is_nan v); simpl in *; [reflexivity|].
  destruct (is_nan u); simpl in *; [discriminate|].
  destruct (ltb v u) eqn:Hvu; [|reflexivity].
  now rewrite (ltb_transitive b v u Hv Hvu) in Hu.
Qed.

(** The scan ends on an element of the list that no element beats. *)
Lemma scan_max_spec (l : list T) :
  forall (pre : list T) (best_i : nat) (best : T),
    nth_error (pre ++ l) best_i = Some best ->
    best_i < length pre ->
    Forall (fun v => replaces v best = false) pre ->
    nth_error (pre ++ l) (fst (scan_max l (length pre) best_i best))
    = Some (snd (scan_max l (length pre) best_i best))
    /\ Forall (fun v => replaces v (snd (scan_max l (length pre) best_i best)) = false)
              (pre ++ l).
Proof.
  induction l as [|v l IH]; intros pre best_i best Hbest Hlt Hpre; simpl.
  - rewrite app_nil_r in *. auto.
  - assert (Happ : pre ++ v :: l = (pre ++ [v]) ++ l)
      by (now rewrite <- app_assoc).
    assert (Hlen : S (length pre) = length (pre ++ [v]))
      by (rewrite length_app; simpl; lia).
    rewrite Happ, Hlen in *.
    destruct (replaces v best) eqn:Hrep.
    + apply IH.
      * rewrite <- Happ, nth_error_app2, Nat.sub_diag by lia. reflexivity.
      * rewrite <- Hlen. lia.
      * apply Forall_app. split.
        -- eapply Forall_impl; [|exact Hpre].
           intros u Hu. simpl in Hu. eapply replaces_carries; eauto.
        -- constructor; [apply replaces_self|constructor].
    + apply IH.
      * exact Hbest.
      * rewrite <- Hlen. lia.
      * apply Forall_app. split; [exact Hpre|].
        constructor; [exact Hrep|constructor].
Qed.

End Maximum.

Section ComparisonReport.
Context {T : Type} `{CompareLaws T}.

(** C8, amended: for two non-empty tensors of one shape the comparison
    returns [True] exactly when every pair of elements is close under
    relative and absolute tolerance [0.5].  It always reports the
    largest difference with its value and location; it reports the
    counts of exact zeros only when the comparison fails, and the NaN
    count of [actual] only when the comparison fails and that count is
    positive. *)
Theorem comparison_report (actual expected : tensor T) (name : string)
        (m k : nat) :
  has_shape actual m k -> has_shape expected m k ->
  0 < m -> 0 < k ->
  exists max_diff idx actual_value expected_value is_close,
    analyze_tensor_differences actual expected name
    = (report_records name max_diff idx actual_value expected_value is_close
                      actual expected,
       Ok is_close)
    /\ item_at actual idx = Ok actual_value
    /\ item_at expected idx = Ok expected_value
    /\ max_diff = absolute (sub actual_value expected_value)
    /\ Forall (fun q => replaces (absolute (sub (fst q) (snd q))) max_diff = false)
              (element_pairs actual expected)
    /\ (is_close = true <->
        Forall (fun q => isclose tolerance_half tolerance_half (fst q) (snd q) = true)
               (element_pairs actual expected)).
Proof.
  intros Ha He Hm Hk.
  destruct (abs_difference_same _ _ _ _ Ha He) as [diff [Hdiff Hflat]].
  set (g := fun q : T * T => absolute (sub (fst q) (snd q))) in *.
  assert (Hlen : length (element_pairs actual expected) = m * k).
  { unfold element_pairs.
    rewrite length_combine, (flat_length _ _ _ Ha), (flat_length _ _ _ He). lia. }
  destruct (element_pairs actual expected) as [|q0 pairs] eqn:Hpairs;
    [simpl in Hlen; nia|].
  simpl in Hflat.
  pose proof (scan_max_spec (map g pairs) [g q0] 0 (g q0) eq_refl
                            (Nat.lt_0_succ 0)
                            (Forall_cons _ (replaces_self (g q0)) (Forall_nil _)))
    as [Hnth Hmax].
  simpl length in Hnth, Hmax.
  set (found := scan_max (map g pairs) 1 0 (g q0)) in *.
  change ([g q0] ++ map g pairs) with (map g (q0 :: pairs)) in Hnth, Hmax.
  rewrite nth_error_map in Hnth.
  destruct (nth_error (q0 :: pairs) (fst found)) as [[va ve]|] eqn:Hq;
    [|discriminate].
  simpl in Hnth. injection Hnth as Hd.
  assert (Hi : fst found < m * k).
  { rewrite <- Hlen. apply nth_error_Some. simpl length. congruence. }
  rewrite <- Hpairs in Hq. unfold element_pairs in Hq.
  apply nth_error_combine in Hq as [Hva Hve].
  exists (snd found), (fst found / k, fst found mod k), va, ve,
    (forallb (fun q => isclose tolerance_half tolerance_half (fst q) (snd q))
             (q0 :: pairs)).
  split; [|split; [|split; [|split; [|split]]]].
  - unfold analyze_tensor_differences.
    rewrite Hdiff, lbind_lift_ok.
    unfold argmax, tensor_max. rewrite Hflat. fold found.
    rewrite lbind_lift_ok.
    assert (Hun : unravel_index (fst found) actual
                  = Ok (fst found / k, fst found mod k)).
    { unfold unravel_index, numel.
      destruct Ha as [-> [-> _]].
      now apply Nat.ltb_lt in Hi as ->. }
    rewrite Hun, !lbind_lift_ok, lbind_logging.
    rewrite (item_at_flat _ _ _ _ Ha Hk _ Hva), lbind_lift_ok.
    rewrite (item_at_flat _ _ _ _ He Hk _ Hve), lbind_lift_ok.
    rewrite lbind_logging.
    rewrite (allclose_same _ _ _ _ _ _ Ha He), lbind_lift_ok, Hpairs.
    unfold report_records.
    destruct (forallb _ (q0 :: pairs)); [reflexivity|].
    destruct (0 <? count_where is_nan actual); reflexivity.
  - exact (item_at_flat _ _ _ _ Ha Hk _ Hva).
  - exact (item_at_flat _ _ _ _ He Hk _ Hve).
  - now rewrite <- Hd.
  - apply Forall_map in Hmax. exact Hmax.
  - rewrite forallb_forall, Forall_forall. reflexivity.
Qed.

End ComparisonReport.

(** ** Concrete runs *)

Example forward_sample :
  compute_reference_forward sample_x sample_w sample_sizes
  = Ok (tz 3 [[1; 2; 3]; [3; 4; 7]; [5; 6; 11]]%Z).
Proof. reflexivity. Qed.

Example backward_sample :
  compute_reference_backward sample_x sample_w sample_sizes sample_grad
  = Ok (tz 2 [[2; 2]; [4; 5]; [0; 1]]%Z, tz 2 [[4; 6]; [12; 16]; [10; 14]]%Z).
Proof. reflexivity. Qed.

(** Without a positive size no product is formed, so disagreeing inner
    extents go unnoticed. *)
Example forward_without_groups_ignores_shapes :
  compute_reference_forward sample_x wide_w [0%Z] = Ok (zeros 3 1).
Proof. reflexivity. Qed.

Example comparison_of_mismatch :
  analyze_tensor_differences measured reference "t"
  = ([(INFO, LargestDifference "t" 5%Q (1, 1));
      (INFO, ValuesAt 9%Q 4%Q);
      (ERROR, MismatchDetected "t");
      (INFO, ZerosActual "t" 0 4);
      (INFO, ZerosExpected "t" 1 4)],
     Ok false).
Proof. reflexivity. Qed.

(** On tensors without elements [argmax] raises before anything is
    reported. *)
Example comparison_of_empty_raises :
  analyze_tensor_differences (tq 2 []) (tq 2 []) "t"
  = ([],
     Raise (IndexError
              "argmax(): Expected reduction dim to be specified for input.numel() == 0.")).
Proof. reflexivity. Qed.

Example sweep_sample :
  snd (sweep_loop reference_engine_forward reference_engine_backward ones
                  small_configs 0 [])
  = Ok [(1, true, true, true); (2, false, false, false);
        (3, false, false, false); (4, true, true, true)]
  /\ snd (test_configs reference_engine_forward reference_engine_backward ones
                       small_configs)
     = Ok false.
Proof. split; reflexivity. Qed.

(** ** The statements at concrete inputs *)

Ltac solve_shape :=
  unfold has_shape, well_formed, nrows; simpl; repeat split; repeat constructor.

Ltac solve_sizes := unfold non_negative; repeat constructor; lia.

Lemma forward_group_slices_witness :
  exists y,
    compute_reference_forward sample_x sample_w sample_sizes = Ok y
    /\ has_shape y 3 3
    /\ forall g, g < length sample_sizes ->
         matmul (slice sample_x (offset sample_sizes g) (offset sample_sizes (S g)))
                (transpose sample_w)
         = Ok (slice y (offset sample_sizes g) (offset sample_sizes (S g))).
Proof.
  apply (forward_group_slices sample_x sample_w sample_sizes 3 2 3).
  - solve_shape.
  - solve_shape.
  - solve_sizes.
  - reflexivity.
Defined.

Lemma backward_group_adjoint_witness :
  exists gx gw,
    compute_reference_backward rounding_x rounding_w [1; 1; 1]%Z rounding_grad
    = Ok (gx, gw)
    /\ has_shape gx 3 1 /\ has_shape gw 1 1
    /\ (forall g, g < length [1; 1; 1]%Z ->
          matmul (group_slice rounding_grad [1; 1; 1]%Z g) rounding_w
          = Ok (group_slice gx [1; 1; 1]%Z g))
    /\ grad_w_last_first rounding_x rounding_grad [1; 1; 1]%Z = Some gw.
Proof.
  apply (backward_group_adjoint rounding_x rounding_w rounding_grad [1; 1; 1]%Z
                                3 1 1).
  - solve_shape.
  - solve_shape.
  - solve_shape.
  - solve_sizes.
  - reflexivity.
  - lia.
Defined.

(** C2 as stated fails on an input without rows: nothing is recorded
    for autograd, and [backward] raises.  It also fails under rounding:
    on three groups of one row the pass returns [1] for the gradient of
    [w], while the sum of the three products taken in group order is
    [0]. *)
Lemma backward_adjoint_fails :
  (has_shape empty_x 0 2 /\ has_shape sample_w 3 2 /\ has_shape empty_grad 0 3
   /\ non_negative [0%Z] /\ total [0%Z] = Z.of_nat 0
   /\ compute_reference_backward empty_x sample_w [0%Z] empty_grad
      = Raise (RuntimeError
                 "element 0 of tensors does not require grad and does not have a grad_fn"))
  /\ (has_shape rounding_x 3 1 /\ has_shape rounding_w 1 1
      /\ has_shape rounding_grad 3 1
      /\ non_negative [1; 1; 1]%Z /\ total [1; 1; 1]%Z = Z.of_nat 3
      /\ compute_reference_backward rounding_x rounding_w [1; 1; 1]%Z rounding_grad
         = Ok (tc 1 [[2]; [1]; [-2]]%Z, tc 1 [[1]]%Z)
      /\ grad_w_by_groups rounding_x rounding_grad [1; 1; 1]%Z = tc 1 [[0]]%Z).
Proof.
  repeat split; try solve_sizes; repeat constructor.
Qed.

Lemma zero_groups_are_noops_witness :
  exists y nodes,
    forward_traced sample_x sample_w sample_sizes = Ok (y, nodes)
    /\ forward_traced sample_x sample_w (remove_zeros sample_sizes) = Ok (y, nodes)
    /\ compute_reference_forward sample_x sample_w sample_sizes = Ok y
    /\ compute_reference_forward sample_x sample_w (remove_zeros sample_sizes) = Ok y.
Proof.
  apply (zero_groups_are_noops sample_x sample_w sample_sizes 3 2 3).
  - solve_shape.
  - solve_shape.
  - solve_sizes.
  - reflexivity.
  - simpl. auto.
Defined.

Lemma single_group_is_matmul_witness :
  compute_reference_forward sample_x sample_w [Z.of_nat 3]
  = matmul sample_x (transpose sample_w).
Proof.
  apply (single_group_is_matmul sample_x sample_w 3 2 3).
  - solve_shape.
  - solve_shape.
Defined.

Lemma forward_shape_witness :
  exists y,
    compute_reference_forward sample_x sample_w sample_sizes = Ok y
    /\ shape y = (Z.to_nat (total sample_sizes), nrows sample_w)
    /\ well_formed y.
Proof.
  apply (forward_shape sample_x sample_w sample_sizes 3 2 3).
  - solve_shape.
  - solve_shape.
  - discriminate.
  - solve_sizes.
  - reflexivity.
Defined.

(** C6 as stated fails when the sizes claim fewer rows than [x] has:
    the pass returns normally and leaves the unclaimed row zero. *)
Lemma forward_accepts_wrong_total :
  total [1%Z] <> Z.of_nat (nrows column_x)
  /\ compute_reference_forward column_x unit_w [1%Z] = Ok (tz 1 [[2]; [0]]%Z).
Proof.
  split; [discriminate|reflexivity].
Qed.

Lemma forward_shape_errors_witness :
  (exists msg,
      compute_reference_forward sample_x wide_w sample_sizes
      = Raise (RuntimeError msg))
  /\ compute_reference_forward column_x unit_w [1%Z]
     = Ok (filled column_x unit_w (Z.to_nat (positive_total [1%Z]))).
Proof.
  split.
  - apply (proj1 (forward_shape_errors sample_x wide_w sample_sizes)).
    + discriminate.
    + constructor. lia.
  - apply (proj2 (forward_shape_errors column_x unit_w [1%Z])). reflexivity.
Defined.

(** C7 as stated fails on a vector with a negative entry: the entry is
    skipped and the pass returns the full product. *)
Lemma forward_skips_negative_size :
  In (-1)%Z [-1; 3]%Z
  /\ total [-1; 3]%Z = Z.of_nat (nrows column_x)
  /\ compute_reference_forward column_x unit_w [-1; 3]%Z = Ok (tz 1 [[2]; [3]]%Z).
Proof.
  repeat split; simpl; auto.
Qed.

Lemma negative_sizes_skipped_witness :
  exists y,
    compute_reference_forward column_x unit_w [-1; 3]%Z = Ok y
    /\ compute_reference_forward column_x unit_w
         (filter (fun z => (0 <=? z)%Z) [-1; 3]%Z) = Ok y.
Proof.
  apply (negative_sizes_skipped column_x unit_w [-1; 3]%Z).
  - constructor. lia.
  - reflexivity.
Defined.

(** C8 as stated fails on a comparison that succeeds: neither the zero
    counts nor the NaN count are reported. *)
Lemma matching_comparison_reports_no_counts :
  has_shape one_q 1 1
  /\ analyze_tensor_differences one_q one_q "t"
     = ([(INFO, LargestDifference "t" 0%Q (0, 0));
         (INFO, ValuesAt 1%Q 1%Q);
         (INFO, MatchesReference "t")],
        Ok true)
  /\ existsb is_zero_count (fst (analyze_tensor_differences one_q one_q "t")) = false
  /\ existsb is_nan_count (fst (analyze_tensor_differences one_q one_q "t")) = false.
Proof.
  repeat split; repeat constructor.
Qed.

Lemma comparison_report_witness :
  exists max_diff idx actual_value expected_value is_close,
    analyze_tensor_differences measured reference "t"
    = (report_records "t" max_diff idx actual_value expected_value is_close
                      measured reference,
       Ok is_close)
    /\ item_at measured idx = Ok actual_value
    /\ item_at reference idx = Ok expected_value
    /\ max_diff = absolute (sub actual_value expected_value)
    /\ Forall (fun q => replaces (absolute (sub (fst q) (snd q))) max_diff = false)
              (element_pairs measured reference)
    /\ (is_close = true <->
        Forall (fun q => isclose tolerance_half tolerance_half (fst q) (snd q) = true)
               (element_pairs measured reference)).
Proof.
  apply (comparison_report measured reference "t" 2 2).
  - solve_shape.
  - solve_shape.
  - lia.
  - lia.
Defined.

Lemma sweep_isolates_failures_witness :
  exists rows,
    snd (sweep_loop reference_engine_forward reference_engine_backward ones
                    small_configs 0 []) = Ok rows
    /\ length rows = 4
    /\ nth_error rows 1 = Some (2, false, false, false)
    /\ nth_error rows 3 = Some (4, true, true, true).
Proof.
  destruct (sweep_isolates_failures reference_engine_forward
              reference_engine_backward ones small_configs)
    as [rows [Hrows [Hlen [Heach _]]]].
  exists rows. split; [exact Hrows|]. split; [exact Hlen|]. split.
  - exact (Heach 1 (0, 1, 1, 1)%N eq_refl).
  - exact (Heach 3 (1, 2, 1, 1)%N eq_refl).
Defined.

Lemma grouping_independent_witness :
  compute_reference_forward rounding_x rounding_w [1; 1; 1]%Z
  = matmul rounding_x (transpose rounding_w)
  /\ compute_reference_forward rounding_x rounding_w [3%Z]
     = compute_reference_forward rounding_x rounding_w [1; 1; 1]%Z
  /\ (0 < 3 ->
      exists gx gw gw',
        compute_reference_backward rounding_x rounding_w [1; 1; 1]%Z rounding_grad
        = Ok (gx, gw)
        /\ compute_reference_backward rounding_x rounding_w [3%Z] rounding_grad
           = Ok (gx, gw')
        /\ matmul rounding_grad rounding_w = Ok gx
        /\ grad_w_last_first rounding_x rounding_grad [1; 1; 1]%Z = Some gw
        /\ grad_w_last_first rounding_x rounding_grad [3%Z] = Some gw').
Proof.
  apply (grouping_independent rounding_x rounding_w rounding_grad
                              [1; 1; 1]%Z [3%Z] 3 1 1).
  - solve_shape.
  - solve_shape.
  - solve_shape.
  - solve_sizes.
  - reflexivity.
  - solve_sizes.
  - reflexivity.
Defined.

(** C10 as stated fails on an input without rows: both groupings make
    [backward] raise instead of returning the two products.  It also
    fails under rounding: the same three rows give [1] for the gradient
    of [w] as three groups of one row and [0] as one group of three. *)
Lemma grouping_independence_fails :
  (has_shape empty_column 0 1 /\ has_shape unit_w 1 1
   /\ non_negative [0; 0]%Z /\ total [0; 0]%Z = Z.of_nat 0
   /\ compute_reference_forward empty_column unit_w [0; 0]%Z
      = matmul empty_column (transpose unit_w)
   /\ compute_reference_backward empty_column unit_w [0; 0]%Z empty_column
      = Raise (RuntimeError
                 "element 0 of tensors does not require grad and does not have a grad_fn"))
  /\ (has_shape rounding_x 3 1 /\ has_shape rounding_w 1 1
      /\ has_shape rounding_grad 3 1
      /\ non_negative [1; 1; 1]%Z /\ total [1; 1; 1]%Z = Z.of_nat 3
      /\ non_negative [3%Z] /\ total [3%Z] = Z.of_nat 3
      /\ compute_reference_backward rounding_x rounding_w [1; 1; 1]%Z rounding_grad
         = Ok (tc 1 [[2]; [1]; [-2]]%Z, tc 1 [[1]]%Z)
      /\ compute_reference_backward rounding_x rounding_w [3%Z] rounding_grad
         = Ok (tc 1 [[2]; [1]; [-2]]%Z, tc 1 [[0]]%Z)).
Proof.
  repeat split; try solve_sizes; repeat constructor.
Qed.

(** * Further properties of the reference passes *)

Section ForwardOutcomes.
Context {T : Type} `{Scalar T}.

Lemma forward_loop_skips (x w : tensor T) (sizes : list Z) :
  Forall (fun z => (z <= 0)%Z) sizes ->
  forall m_start result tape,
    forward_loop x w sizes m_start result tape = Ok (result, tape).
Proof.
  induction 1 as [|z rest Hz _ IH]; intros m_start result tape; simpl.
  - reflexivity.
  - destruct (Z.ltb_spec 0 z); [lia|apply IH].
Qed.

Lemma skipped_or_executed (sizes : list Z) :
  Forall (fun z => (z <= 0)%Z) sizes \/ Exists (fun z => (0 < z)%Z) sizes.
Proof.
  induction sizes as [|z rest [IH|IH]].
  - left. constructor.
  - destruct (Z_lt_le_dec 0 z) as [Hz|Hz].
    + right. now constructor.
    + left. now constructor.
  - right. now constructor 2.
Qed.

Lemma positive_total_skipped (sizes : list Z) :
  Forall (fun z => (z <= 0)%Z) sizes -> positive_total sizes = 0%Z.
Proof.
  unfold positive_total. induction 1 as [|z rest Hz _ IH]; simpl; [reflexivity|].
  destruct (Z.ltb_spec 0 z); [lia|exact IH].
Qed.

Lemma forward_skipped (x w : tensor T) (sizes : list Z) :
  Forall (fun z => (z <= 0)%Z) sizes ->
  compute_reference_forward x w sizes = Ok (zeros (nrows x) (nrows w)).
Proof.
  intros Hs. unfold compute_reference_forward, forward_traced.
  now rewrite forward_loop_skips.
Qed.

Lemma forward_mismatch (x w : tensor T) (sizes : list Z) :
  ncols x <> ncols w -> Exists (fun z => (0 < z)%Z) sizes ->
  compute_reference_forward x w sizes
  = Raise (RuntimeError
             (shapes_cannot_be_multiplied (slice x 0 (first_positive sizes))
                                          (transpose w))).
Proof.
  intros Hk Hex. unfold compute_reference_forward, forward_traced.
  now rewrite forward_loop_mismatch.
Qed.

Lemma zeros_has_shape (m n : nat) : has_shape (zeros m n : tensor T) m n.
Proof.
  unfold has_shape, zeros, nrows, well_formed. simpl.
  rewrite repeat_length. repeat split.
  apply Forall_forall. intros r Hr. apply repeat_spec in Hr. subst r.
  apply repeat_length.
Qed.

Lemma filled_has_shape (x w : tensor T) (s : nat) :
  has_shape (filled x w s) (nrows x) (nrows w).
Proof.
  split; [apply nrows_filled|]. split; [reflexivity|].
  unfold well_formed, filled. simpl. apply Forall_app. split.
  - apply (mm_well_formed (mkTensor (ncols x) (firstn s (rows x))) (transpose w)).
  - apply Forall_forall. intros r Hr. apply repeat_spec in Hr. subst r.
    apply repeat_length.
Qed.

(** X1: whenever the forward pass returns, its result is a well-formed
    tensor of shape [(x.shape[0], w.shape[0])], whatever the sizes are. *)
Theorem forward_result_shape (x w : tensor T) (sizes : list Z) (y : tensor T) :
  compute_reference_forward x w sizes = Ok y ->
  has_shape y (nrows x) (nrows w).
Proof.
  intros Hy. destruct (Nat.eq_dec (ncols x) (ncols w)) as [Hk|Hk].
  - rewrite forward_filled in Hy by exact Hk. injection Hy as <-.
    apply filled_has_shape.
  - destruct (skipped_or_executed sizes) as [Hs|Hs].
    + rewrite forward_skipped in Hy by exact Hs. injection Hy as <-.
      apply zeros_has_shape.
    + rewrite forward_mismatch in Hy by assumption. discriminate.
Qed.

(** X2: when the inner extents of [x] and [w] agree, the forward pass
    returns, and its result depends on the sizes only through the sum of
    their positive entries. *)
Theorem forward_depends_on_positive_total (x w : tensor T) (sizes sizes' : list Z) :
  ncols x = ncols w ->
  positive_total sizes = positive_total sizes' ->
  exists y,
    compute_reference_forward x w sizes = Ok y
    /\ compute_reference_forward x w sizes' = Ok y.
Proof.
  intros Hk Hpt. exists (filled x w (Z.to_nat (positive_total sizes))).
  split.
  - now apply forward_filled.
  - rewrite Hpt. now apply forward_filled.
Qed.

Lemma backward_after_forward_failure (x w gy : tensor T) (sizes : list Z)
      (e : exception) :
  compute_reference_forward x w sizes = Raise e ->
  compute_reference_backward x w sizes gy = Raise e.
Proof.
  unfold compute_reference_forward, compute_reference_backward.
  destruct (forward_traced x w sizes) as [rt|e0]; simpl.
  - discriminate.
  - intros He. injection He as ->. reflexivity.
Qed.

(** X3: the backward pass runs the forward pass first.  When the inner
    extents of [x] and [w] disagree and some size is positive it raises
    the error of the matrix product of the first executed group, whose
    text names the shapes of that group's rows and of [w.T], whatever
    the gradient is, even one of the wrong shape. *)
Theorem backward_fails_in_forward_first (x w gy : tensor T) (sizes : list Z) :
  ncols x <> ncols w -> Exists (fun z => (0 < z)%Z) sizes ->
  compute_reference_backward x w sizes gy
  = Raise (RuntimeError
             (shapes_cannot_be_multiplied (slice x 0 (first_positive sizes))
                                          (transpose w))).
Proof.
  intros Hk Hex. apply backward_after_forward_failure.
  now apply forward_mismatch.
Qed.

(** X4: a gradient whose shape is not that of the output is rejected
    before anything is differentiated. *)
Theorem backward_rejects_grad_shape (x w gy : tensor T) (sizes : list Z) :
  ncols x = ncols w ->
  shape gy <> (nrows x, nrows w) ->
  compute_reference_backward x w sizes gy
  = Raise (RuntimeError "Mismatch in shape of grad_output and output").
Proof.
  intros Hk Hshape. unfold compute_reference_backward.
  rewrite forward_traced_filled by exact Hk. cbn [bind]. unfold backward.
  assert (Hne : shape_eqb gy (filled x w (Z.to_nat (positive_total sizes))) = false).
  { unfold shape_eqb. rewrite nrows_filled.
    change (ncols (filled x w (Z.to_nat (positive_total sizes)))) with (nrows w).
    destruct (Nat.eqb_spec (nrows gy) (nrows x)) as [Hr|Hr]; [|reflexivity].
    destruct (Nat.eqb_spec (ncols gy) (nrows w)) as [Hc|Hc]; [|reflexivity].
    exfalso. apply Hshape. unfold shape. now rewrite Hr, Hc. }
  now rewrite Hne.
Qed.

End ForwardOutcomes.

Section BackwardEdge.
Context {T : Type} `{Scalar T}.

(** X5: when no size is positive nothing is recorded for autograd, and
    the backward pass raises even though the forward pass returned. *)
Theorem backward_needs_an_executed_group (x w gy : tensor T) (sizes : list Z) :
  ncols x = ncols w ->
  Forall (fun z => (z <= 0)%Z) sizes ->
  shape gy = (nrows x, nrows w) ->
  compute_reference_forward x w sizes = Ok (zeros (nrows x) (nrows w))
  /\ compute_reference_backward x w sizes gy
     = Raise (RuntimeError
                "element 0 of tensors does not require grad and does not have a grad_fn").
Proof.
  intros Hk Hs Hshape. split.
  - now apply forward_skipped.
  - unfold shape in Hshape. injection Hshape as Hr Hc.
    apply backward_nothing_recorded; try assumption.
    now apply positive_total_skipped.
Qed.

End BackwardEdge.

(** * Further properties of the comparison *)

Section ComparisonEdges.
Context {T : Type} `{Compare T}.

Lemma lbind_lift_raise {A B : Type} (e : exception) (k : A -> logged T B) :
  lbind (lift (Raise e)) k = ([], Raise e).
Proof.
  reflexivity.
Qed.

(** The scan ends on an element of the list, whatever the order is. *)
Lemma scan_max_position (l : list T) :
  forall (pre : list T) (best_i : nat) (best : T),
    nth_error (pre ++ l) best_i = Some best ->
    best_i < length pre ->
    nth_error (pre ++ l) (fst (scan_max l (length pre) best_i best))
    = Some (snd (scan_max l (length pre) best_i best)).
Proof.
  induction l as [|v l IH]; intros pre best_i best Hbest Hlt; simpl.
  - exact Hbest.
  - assert (Happ : pre ++ v :: l = (pre ++ [v]) ++ l)
      by (now rewrite <- app_assoc).
    assert (Hlen : S (length pre) = length (pre ++ [v]))
      by (rewrite length_app; simpl; lia).
    rewrite Happ, Hlen in *.
    destruct (replaces v best).
    + apply IH.
      * rewrite <- Happ, nth_error_app2, Nat.sub_diag by lia. reflexivity.
      * rewrite <- Hlen. lia.
    + apply IH; [exact Hbest|rewrite <- Hlen; lia].
Qed.

Lemma pairs_length (a e : tensor T) (m k : nat) :
  has_shape a m k -> has_shape e m k -> length (element_pairs a e) = m * k.
Proof.
  intros Ha He. unfold element_pairs.
  rewrite length_combine, (flat_length _ _ _ Ha), (flat_length _ _ _ He). lia.
Qed.

(** The run of the comparison on two non-empty tensors of one shape. *)
Lemma comparison_runs (actual expected : tensor T) (name : string) (m k : nat) :
  has_shape actual m k -> has_shape expected m k ->
  0 < m -> 0 < k ->
  exists max_diff idx actual_value expected_value,
    analyze_tensor_differences actual expected name
    = (report_records name max_diff idx actual_value expected_value
         (forallb (fun q => isclose tolerance_half tolerance_half (fst q) (snd q))
                  (element_pairs actual expected))
         actual expected,
       Ok (forallb (fun q => isclose tolerance_half tolerance_half (fst q) (snd q))
                   (element_pairs actual expected)))
    /\ item_at actual idx = Ok actual_value
    /\ item_at expected idx = Ok expected_value.
Proof.
  intros Ha He Hm Hk.
  destruct (abs_difference_same _ _ _ _ Ha He) as [diff [Hdiff Hflat]].
  set (g := fun q : T * T => absolute (sub (fst q) (snd q))) in *.
  pose proof (pairs_length _ _ _ _ Ha He) as Hlen.
  destruct (element_pairs actual expected) as [|q0 pairs] eqn:Hpairs;
    [simpl in Hlen; nia|].
  simpl in Hflat.
  pose proof (scan_max_position (map g pairs) [g q0] 0 (g q0) eq_refl
                                (Nat.lt_0_succ 0)) as Hnth.
  simpl length in Hnth.
  set (found := scan_max (map g pairs) 1 0 (g q0)) in *.
  change ([g q0] ++ map g pairs) with (map g (q0 :: pairs)) in Hnth.
  rewrite nth_error_map in Hnth.
  destruct (nth_error (q0 :: pairs) (fst found)) as [[va ve]|] eqn:Hq;
    [|discriminate].
  assert (Hi : fst found < m * k).
  { rewrite <- Hlen. apply nth_error_Some. simpl length. congruence. }
  rewrite <- Hpairs in Hq. unfold element_pairs in Hq.
  apply nth_error_combine in Hq as [Hva Hve].
  exists (snd found), (fst found / k, fst found mod k), va, ve.
  split; [|split].
  - unfold analyze_tensor_differences.
    rewrite Hdiff, lbind_lift_ok.
    unfold argmax, tensor_max. rewrite Hflat. fold found.
    rewrite lbind_lift_ok.
    assert (Hun : unravel_index (fst found) actual
                  = Ok (fst found / k, fst found mod k)).
    { unfold unravel_index, numel.
      destruct Ha as [-> [-> _]].
      now apply Nat.ltb_lt in Hi as ->. }
    rewrite Hun, !lbind_lift_ok, lbind_logging.
    rewrite (item_at_flat _ _ _ _ Ha Hk _ Hva), lbind_lift_ok.
    rewrite (item_at_flat _ _ _ _ He Hk _ Hve), lbind_lift_ok.
    rewrite lbind_logging.
    rewrite (allclose_same _ _ _ _ _ _ Ha He), lbind_lift_ok, Hpairs.
    unfold report_records.
    destruct (forallb _ (q0 :: pairs)); [reflexivity|].
    destruct (0 <? count_where is_nan actual); reflexivity.
  - exact (item_at_flat _ _ _ _ Ha Hk _ Hva).
  - exact (item_at_flat _ _ _ _ He Hk _ Hve).
Qed.

Lemma combine_self {A : Type} (l : list A) :
  combine l l = map (fun v => (v, v)) l.
Proof.
  induction l as [|v l IH]; simpl; [reflexivity|now rewrite IH].
Qed.

Lemma self_equal_close (t : tensor T) :
  self_equal t ->
  forallb (fun q => isclose tolerance_half tolerance_half (fst q) (snd q))
          (element_pairs t t) = true.
Proof.
  intros Hself. unfold element_pairs. rewrite combine_self.
  apply forallb_forall. intros q Hq.
  apply in_map_iff in Hq as [v [<- Hv]]. simpl.
  unfold self_equal in Hself. rewrite Forall_forall in Hself.
  unfold isclose. now rewrite (Hself v Hv).
Qed.

Lemma comparison_of_self_returns (t : tensor T) (name : string) (m k : nat) :
  has_shape t m k -> 0 < m -> 0 < k -> self_equal t ->
  snd (analyze_tensor_differences t t name) = Ok true.
Proof.
  intros Ht Hm Hk Hself.
  destruct (comparison_runs t t name m k Ht Ht Hm Hk) as [d [idx [va [ve [Hrun _]]]]].
  rewrite Hrun. simpl. now rewrite (self_equal_close t Hself).
Qed.

(** X6: comparing a non-empty tensor without NaN against itself
    succeeds, and reports exactly the largest difference, the two equal
    values at its position and the success. *)
Theorem comparison_reflexive (t : tensor T) (name : string) (m k : nat) :
  has_shape t m k -> 0 < m -> 0 < k ->
  self_equal t ->
  exists max_diff idx value,
    analyze_tensor_differences t t name
    = ([(INFO, LargestDifference name max_diff idx);
        (INFO, ValuesAt value value);
        (INFO, MatchesReference name)],
       Ok true)
    /\ item_at t idx = Ok value.
Proof.
  intros Ht Hm Hk Hself.
  destruct (comparison_runs t t name m k Ht Ht Hm Hk)
    as [d [idx [va [ve [Hrun [Hva Hve]]]]]].
  assert (Heq : va = ve) by congruence. subst ve.
  rewrite (self_equal_close t Hself) in Hrun.
  exists d, idx, va. split; [exact Hrun|exact Hva].
Qed.

(** X7: on two tensors of one shape without elements the comparison
    raises [IndexError] at [argmax] and reports nothing. *)
Theorem comparison_of_nothing_raises (actual expected : tensor T) (name : string)
        (m k : nat) :
  has_shape actual m k -> has_shape expected m k ->
  m * k = 0 ->
  analyze_tensor_differences actual expected name
  = ([],
     Raise (IndexError
              "argmax(): Expected reduction dim to be specified for input.numel() == 0.")).
Proof.
  intros Ha He Hmk.
  destruct (abs_difference_same _ _ _ _ Ha He) as [diff [Hdiff Hflat]].
  pose proof (pairs_length _ _ _ _ Ha He) as Hlen. rewrite Hmk in Hlen.
  destruct (element_pairs actual expected); [|discriminate].
  simpl in Hflat.
  unfold analyze_tensor_differences.
  rewrite Hdiff, lbind_lift_ok. unfold argmax. rewrite Hflat.
  apply lbind_lift_raise.
Qed.

(** X8: when the row counts (or the column counts) of the two tensors
    differ and neither is one, the subtraction raises and nothing is
    reported. *)
Theorem comparison_of_unrelated_shapes_raises (actual expected : tensor T)
        (name : string) :
  (nrows actual <> nrows expected /\ nrows actual <> 1 /\ nrows expected <> 1)
  \/ (ncols actual <> ncols expected /\ ncols actual <> 1 /\ ncols expected <> 1) ->
  analyze_tensor_differences actual expected name
  = ([],
     Raise (RuntimeError "The size of tensor a must match the size of tensor b")).
Proof.
  intros Hshape.
  assert (Hb : broadcast_tensors actual expected
               = Raise (RuntimeError
                          "The size of tensor a must match the size of tensor b")).
  { unfold broadcast_tensors.
    assert (Hext : forall a b, a <> b -> a <> 1 -> b <> 1 ->
                               broadcast_extent a b = None).
    { intros a b Hab Ha Hb. unfold broadcast_extent.
      destruct (Nat.eqb_spec a b); [contradiction|].
      destruct (Nat.eqb_spec a 1); [contradiction|].
      destruct (Nat.eqb_spec b 1); [contradiction|reflexivity]. }
    destruct Hshape as [[Hne [Ha He]]|[Hne [Ha He]]].
    - now rewrite (Hext _ _ Hne Ha He).
    - rewrite (Hext (ncols actual) _ Hne Ha He).
      now destruct (broadcast_extent (nrows actual) (nrows expected)). }
  unfold analyze_tensor_differences, abs_difference. rewrite Hb.
  reflexivity.
Qed.

End ComparisonEdges.

(** * Further properties of the sweep *)

Section EvenSizes.

Lemma total_snoc (l : list Z) (z : Z) : total (l ++ [z]) = (total l + z)%Z.
Proof.
  rewrite total_app. unfold total. simpl. lia.
Qed.

Lemma even_sizes_prefix_total (base r : N) (n : nat) :
  total (map (fun i => Z.of_N (base + (if (i <? r)%N then 1 else 0)))
             (map N.of_nat (seq 0 n)))
  = (Z.of_nat n * Z.of_N base + Z.min (Z.of_nat n) (Z.of_N r))%Z.
Proof.
  induction n as [|n IH].
  - simpl. lia.
  - rewrite seq_S, !map_app. simpl map. rewrite total_snoc, IH.
    destruct (N.ltb_spec (N.of_nat n) r); lia.
Qed.

Lemma even_sizes_facts (G M : N) :
  G <> 0%N ->
  length (even_sizes G M) = N.to_nat G
  /\ Forall (fun z => (Z.of_N (M / G) <= z <= Z.of_N (M / G) + 1)%Z) (even_sizes G M)
  /\ non_negative (even_sizes G M)
  /\ total (even_sizes G M) = Z.of_N M.
Proof.
  intros HG.
  assert (Hbounds : Forall (fun z => (Z.of_N (M / G) <= z <= Z.of_N (M / G) + 1)%Z)
                           (even_sizes G M)).
  { unfold even_sizes. apply Forall_forall. intros z Hz.
    apply in_map_iff in Hz as [i [<- _]].
    destruct (i <? M mod G)%N; lia. }
  split; [|split; [exact Hbounds|split]].
  - unfold even_sizes. now rewrite !length_map, length_seq.
  - unfold non_negative. eapply Forall_impl; [|exact Hbounds].
    intros z Hz. cbv beta in Hz.
    pose proof (N2Z.is_nonneg (M / G)) as Hq. lia.
  - unfold even_sizes. rewrite even_sizes_prefix_total.
    pose proof (N.mod_lt M G HG) as Hr.
    pose proof (N.div_mod M G HG) as Hdm.
    rewrite Z.min_r by lia. nia.
Qed.


(** X9: for at least one group, the sizes the sweep builds have one
    entry per group, each the quotient [M // G] or one more, and they
    sum to [M]: no row is dropped or counted twice. *)
Theorem even_sizes_partition (G M : N) :
  G <> 0%N ->
  length (even_sizes G M) = N.to_nat G
  /\ Forall (fun z => (Z.of_N (M / G) <= z <= Z.of_N (M / G) + 1)%Z) (even_sizes G M)
  /\ non_negative (even_sizes G M)
  /\ total (even_sizes G M) = Z.of_N M.
Proof.
  apply even_sizes_facts.
Qed.

End EvenSizes.

Section AgreeingEngine.
Context {T : Type} {S : Scalar T} {L : RoundingLaws T} {C : Compare T}.
Variable randn : nat -> nat -> nat -> nat -> outcome (tensor T).

Lemma int32_tensor_even (G M : N) :
  G <> 0%N -> (M < 2147483647)%N ->
  int32_tensor (even_sizes G M) = Ok (even_sizes G M).
Proof.
  intros HG HM. unfold int32_tensor.
  destruct (even_sizes_facts G M HG) as [_ [Hb _]].
  assert (Hall : forallb (fun v => (-2147483648 <=? v)%Z && (v <=? 2147483647)%Z)
                         (even_sizes G M) = true).
  { apply forallb_forall. intros z Hz.
    rewrite Forall_forall in Hb. specialize (Hb z Hz).
    pose proof (N2Z.is_nonneg (M / G)) as Hq.
    assert (Hle : (M / G <= M)%N) by (apply N.Div0.div_le_upper_bound; nia).
    apply andb_true_iff. split; [apply Z.leb_le|apply Z.leb_le]; lia. }
  now rewrite Hall.
Qed.

(** The gradients of the reference on a partition of at least one row:
    both are returned, with the shapes of [x] and [w]. *)
Lemma reference_gradients (x w gy : tensor T) (sizes : list Z) (M K N : nat) :
  has_shape x M K -> has_shape w N K -> has_shape gy M N ->
  non_negative sizes -> total sizes = Z.of_nat M -> 0 < M ->
  exists gx gw,
    compute_reference_backward x w sizes gy = Ok (gx, gw)
    /\ has_shape gx M K /\ has_shape gw N K.
Proof.
  intros [Hxm [Hxk _]] [Hwn [Hwk Hwf]] [Hgm [Hgn _]] Hnn Hsum Hpos.
  destruct (backward_accumulates x w gy sizes) as [gw [Hgw Hback]];
    try congruence; try assumption; try lia.
  exists (mm gy w), gw. split; [exact Hback|]. split.
  - rewrite <- Hgm, <- Hwk. apply mm_has_shape.
  - rewrite <- Hgn, <- Hxk. now apply grad_w_last_first_shape with (sizes := sizes).
Qed.

(** The body of one configuration, run with an engine that agrees with
    the reference. *)
Lemma agreeing_engine_body (config_idx : nat) (G M K N : N) (x w gy : tensor T) :
  G <> 0%N -> (0 < M < 2147483647)%N -> (0 < K)%N -> (0 < N)%N ->
  randn config_idx 0 (N.to_nat M) (N.to_nat K) = Ok x ->
  has_shape x (N.to_nat M) (N.to_nat K) ->
  randn config_idx 1 (N.to_nat N) (N.to_nat K) = Ok w ->
  has_shape w (N.to_nat N) (N.to_nat K) ->
  randn config_idx 2 (N.to_nat M) (N.to_nat N) = Ok gy ->
  has_shape gy (N.to_nat M) (N.to_nat N) ->
  self_equal (mm x (transpose w)) ->
  clean_gradients x w gy (even_sizes G M) ->
  snd (config_body exact_forward agreeing_backward randn config_idx (G, M, K, N))
  = Ok (true, true, true).
Proof.
  intros HG HM HK HN Hx Hxs Hw Hws Hgy Hgys Hy Hclean.
  destruct (even_sizes_facts G M HG) as [_ [_ [Hnn Htot]]].
  assert (Htotal : total (even_sizes G M) = Z.of_nat (N.to_nat M))
    by (rewrite Htot; lia).
  destruct (reference_gradients x w gy (even_sizes G M) _ _ _ Hxs Hws Hgys Hnn Htotal)
    as [gx [gw [Hback [Hgxs Hgws]]]]; [lia|].
  destruct (Hclean gx gw Hback) as [Hgx Hgw].
  destruct Hxs as [Hxm [Hxk Hxwf]], Hws as [Hwn [Hwk Hwwf]],
           Hgys as [Hgm [Hgn Hgwf]].
  assert (Hkk : ncols x = ncols w) by congruence.
  rewrite <- Hxm in Htotal.
  unfold config_body.
  destruct (N.eqb_spec G 0) as [|_]; [contradiction|].
  rewrite (snd_lbind _ _ tt) by reflexivity.
  cbv zeta. fold (even_sizes G M).
  rewrite (snd_lbind _ _ _ (f_equal snd (f_equal lift (int32_tensor_even G M HG (proj2 HM))))).
  rewrite Hx, (snd_lbind _ _ x) by reflexivity.
  rewrite Hw, (snd_lbind _ _ w) by reflexivity.
  rewrite (snd_lbind _ _ tt) by reflexivity.
  unfold exact_forward at 1.
  rewrite (snd_lbind _ _ (mm x (transpose w))) by reflexivity.
  rewrite (snd_lbind _ _ tt) by reflexivity.
  rewrite (forward_valid x w (even_sizes G M) Hkk Hnn Htotal).
  rewrite (snd_lbind _ _ (mm x (transpose w))) by reflexivity.
  assert (Hys : has_shape (mm x (transpose w)) (N.to_nat M) (N.to_nat N)).
  { rewrite <- Hxm, <- Hwn. apply (mm_has_shape x (transpose w)). }
  rewrite (snd_lbind _ _ true)
    by (apply (comparison_of_self_returns _ _ _ _ Hys); (lia || assumption)).
  destruct Hys as [Hym [Hyn _]]. rewrite Hym, Hyn, Hgy.
  rewrite (snd_lbind _ _ gy) by reflexivity.
  unfold agreeing_backward at 1. rewrite Hback.
  rewrite (snd_lbind _ _ (gx, gw)) by reflexivity.
  rewrite (snd_lbind _ _ (gx, gw)) by reflexivity.
  rewrite (snd_lbind _ _ true)
    by (apply (comparison_of_self_returns _ _ _ _ Hgxs); (lia || assumption)).
  rewrite (snd_lbind _ _ true)
    by (apply (comparison_of_self_returns _ _ _ _ Hgws); (lia || assumption)).
  reflexivity.
Qed.

Lemma agreeing_engine_verdict (config_idx : nat) (c : config) :
  runnable c -> clean_draws randn config_idx c ->
  verdict exact_forward agreeing_backward randn config_idx c
  = (config_idx + 1, true, true, true).
Proof.
  destruct c as [[[G M] K] N]. intros [HG [HM [HK HN]]].
  intros [x [w [gy [Hx [Hxs [Hw [Hws [Hgy [Hgys [Hy Hclean]]]]]]]]]].
  unfold verdict.
  now rewrite (agreeing_engine_body config_idx G M K N x w gy HG HM HK HN
                 Hx Hxs Hw Hws Hgy Hgys Hy Hclean).
Qed.

Lemma agreeing_engine_verdicts (configs : list config) :
  forall config_idx,
    (forall i c, nth_error configs i = Some c ->
                 runnable c /\ clean_draws randn (config_idx + i) c) ->
    forallb overall_success
            (verdicts exact_forward agreeing_backward randn configs config_idx)
    = true.
Proof.
  induction configs as [|c rest IH]; intros config_idx Hall; [reflexivity|].
  cbn [verdicts forallb].
  destruct (Hall 0 c eq_refl) as [Hc Hclean].
  rewrite Nat.add_0_r in Hclean.
  rewrite (agreeing_engine_verdict config_idx c Hc Hclean).
  cbn [overall_success andb]. apply IH.
  intros i c' Hi.
  replace (Datatypes.S config_idx + i) with (config_idx + Datatypes.S i) by lia.
  now apply Hall.
Qed.

End AgreeingEngine.

Section SweepOutcomes.
Context {T : Type} {S : Scalar T} {L : RoundingLaws T} {C : Compare T}.
Variable grouped_gemm_forward :
  tensor T -> tensor T -> list Z -> outcome (tensor T).
Variable grouped_gemm_backward :
  tensor T -> tensor T -> tensor T -> list Z -> outcome (tensor T * tensor T).
Variable randn : nat -> nat -> nat -> nat -> outcome (tensor T).

(** X10: a configuration with zero groups divides by zero; the exception
    is caught, logged twice, and the configuration is recorded as failed,
    whatever the engine is. *)
Theorem zero_group_config_is_caught (config_idx : nat) (M K N : N) :
  run_config grouped_gemm_forward grouped_gemm_backward randn config_idx
             (0%N, M, K, N)
  = ([(INFO, TestingConfig (config_idx + 1));
      (INFO, ConfigParameters 0 M K N);
      (ERROR, ConfigRaised (config_idx + 1) ZeroDivisionError);
      (ERROR, Traceback ZeroDivisionError)],
     Ok (config_idx + 1, false, false, false)).
Proof.
  reflexivity.
Qed.

(** X11: an engine that returns the plain product and the gradients of
    the reference passes a runnable configuration whose draws went
    well, for element arithmetic in which adding zero changes nothing
    and products commute: the body does not raise, the three comparisons
    succeed, and the row is all [True]. *)
Theorem agreeing_engine_passes_config (config_idx : nat) (c : config) :
  runnable c -> clean_draws randn config_idx c ->
  snd (run_config exact_forward agreeing_backward randn config_idx c)
  = Ok (config_idx + 1, true, true, true).
Proof.
  intros Hc Hclean. rewrite run_config_row. f_equal.
  now apply agreeing_engine_verdict.
Qed.

(** X12: with such an engine the sweep over the four DeepSeek
    configurations returns [True], provided the draws of each of the
    four went well. *)
Theorem agreeing_engine_passes_deepseek_sweep :
  (forall i c, nth_error deepseek_configs i = Some c -> clean_draws randn i c) ->
  snd (test_multiple_deepseek_configs exact_forward agreeing_backward randn) = Ok true.
Proof.
  intros Hclean.
  unfold test_multiple_deepseek_configs. rewrite test_configs_returns.
  f_equal. apply agreeing_engine_verdicts.
  intros i c Hi. split; [|now apply Hclean].
  unfold deepseek_configs in Hi.
  do 4 (destruct i as [|i];
        [injection Hi as <-; unfold runnable;
         repeat split; (discriminate || reflexivity)|]).
  destruct i; discriminate.
Qed.

End SweepOutcomes.

(** * Properties of the two basic tests *)

Section BasicTestOutcomes.
Context {T : Type} {S : Scalar T} {C : Compare T}.
Variable draw : nat -> nat -> nat -> outcome (tensor T).

Lemma snd_tbind {A B : Type} (m : traced T A) (k : A -> traced T B) (a : A) :
  snd m = Ok a -> snd (tbind m k) = snd (k a).
Proof.
  intros Hm. unfold tbind. now rewrite Hm.
Qed.

Lemma guarded_ok (body : traced T bool) (b : bool) :
  snd body = Ok b -> snd (guarded body) = Ok b.
Proof.
  intros Hb. unfold guarded. now rewrite Hb.
Qed.

(** X13: with an engine that returns the exact product, inputs of the
    drawn shapes and an output without NaN, [test_forward_pass] returns
    [True]. *)
Theorem forward_test_passes_exact_engine (x w : tensor T) :
  draw 0 (Z.to_nat 2048) (Z.to_nat 7168) = Ok x ->
  has_shape x (Z.to_nat 2048) (Z.to_nat 7168) ->
  draw 1 (Z.to_nat 4096) (Z.to_nat 7168) = Ok w ->
  has_shape w (Z.to_nat 4096) (Z.to_nat 7168) ->
  self_equal (mm x (transpose w)) ->
  snd (test_forward_pass exact_forward draw) = Ok true.
Proof.
  intros Hx Hxs Hw Hws Hy.
  assert (Hys : has_shape (mm x (transpose w)) (Z.to_nat 2048) (Z.to_nat 4096)).
  { destruct Hxs as [Hxm _], Hws as [Hwn _]. rewrite <- Hxm, <- Hwn.
    apply (mm_has_shape x (transpose w)). }
  destruct Hxs as [Hxm [Hxk _]], Hws as [Hwn [Hwk _]].
  apply guarded_ok. unfold forward_test_body. cbv zeta.
  change (total [2048%Z]) with 2048%Z.
  rewrite (snd_tbind _ _ [2048%Z]) by reflexivity.
  rewrite Hx, (snd_tbind _ _ x) by reflexivity.
  rewrite Hw, (snd_tbind _ _ w) by reflexivity.
  do 5 (rewrite (snd_tbind _ _ tt) by reflexivity).
  unfold exact_forward at 1.
  rewrite (snd_tbind _ _ (mm x (transpose w))) by reflexivity.
  do 2 (rewrite (snd_tbind _ _ tt) by reflexivity).
  assert (Hkk : ncols x = ncols w) by congruence.
  assert (Hnn : non_negative [2048%Z]) by (repeat constructor; lia).
  assert (Htot : total [2048%Z] = Z.of_nat (nrows x))
    by (rewrite Hxm; reflexivity).
  rewrite (forward_valid x w [2048%Z] Hkk Hnn Htot).
  rewrite (snd_tbind _ _ (mm x (transpose w))) by reflexivity.
  rewrite (snd_tbind _ _ tt) by reflexivity.
  rewrite (snd_tbind _ _ true); [reflexivity|].
  unfold compared. cbn [snd].
  apply (comparison_of_self_returns _ _ _ _ Hys); (lia || assumption).
Qed.

(** X14: when the engine raises in [test_forward_pass], the exception is
    caught after the five set-up records, logged twice, and the test
    returns [False]. *)
Theorem forward_test_catches_engine_failure
        (grouped_gemm_forward : tensor T -> tensor T -> list Z -> outcome (tensor T))
        (x w : tensor T) (e : exception) :
  draw 0 (Z.to_nat 2048) (Z.to_nat 7168) = Ok x ->
  draw 1 (Z.to_nat 4096) (Z.to_nat 7168) = Ok w ->
  grouped_gemm_forward x w [2048%Z] = Raise e ->
  test_forward_pass grouped_gemm_forward draw
  = ([(INFO, TestSetup 1 2048 4096 7168);
      (INFO, GroupSizes [2048%Z]);
      (INFO, InputShape (shape x));
      (INFO, WeightShape (shape w));
      (INFO, RunningForward);
      (ERROR, TestFailed e);
      (ERROR, TestTraceback e)],
     Ok false).
Proof.
  intros Hx Hw He. unfold test_forward_pass, guarded, forward_test_body.
  cbv zeta. change (total [2048%Z]) with 2048%Z.
  unfold tbind at 1. cbn [snd fst tlift int32_tensor].
  change (int32_tensor [2048%Z]) with (Ok [2048%Z] : outcome (list Z)).
  cbn [snd fst]. rewrite Hx, Hw. cbn. rewrite He. reflexivity.
Qed.

End BasicTestOutcomes.

Section BackwardTestOutcome.
Context {T : Type} {S : Scalar T} {L : RoundingLaws T} {C : Compare T}.
Variable draw : nat -> nat -> nat -> outcome (tensor T).

(** X15: with an engine that returns the plain product and the
    gradients of the reference, inputs and a gradient of the drawn
    shapes and reference gradients without NaN, [test_backward_pass]
    does not raise and returns [True], for element arithmetic in which
    adding zero changes nothing and products commute. *)
Theorem backward_test_passes_agreeing_engine (x w gy : tensor T) :
  draw 0 (Z.to_nat 8192) (Z.to_nat 7168) = Ok x ->
  has_shape x (Z.to_nat 8192) (Z.to_nat 7168) ->
  draw 1 (Z.to_nat 4096) (Z.to_nat 7168) = Ok w ->
  has_shape w (Z.to_nat 4096) (Z.to_nat 7168) ->
  draw 2 (Z.to_nat 8192) (Z.to_nat 4096) = Ok gy ->
  has_shape gy (Z.to_nat 8192) (Z.to_nat 4096) ->
  clean_gradients x w gy [2048; 2048; 2048; 2048]%Z ->
  snd (test_backward_pass exact_forward agreeing_backward draw) = Ok true.
Proof.
  intros Hx Hxs Hw Hws Hgy Hgys Hclean.
  assert (Hnn : non_negative [2048; 2048; 2048; 2048]%Z)
    by (repeat constructor; lia).
  assert (Htot : total [2048; 2048; 2048; 2048]%Z = Z.of_nat (Z.to_nat 8192))
    by reflexivity.
  destruct (reference_gradients x w gy [2048; 2048; 2048; 2048]%Z _ _ _
              Hxs Hws Hgys Hnn Htot) as [gx [gw [Hback [Hgxs Hgws]]]]; [lia|].
  destruct (Hclean gx gw Hback) as [Hgx Hgw].
  destruct Hxs as [Hxm [Hxk _]], Hws as [Hwn [Hwk Hwwf]], Hgys as [Hgm [Hgn _]].
  assert (Hrows : nrows (mm x (transpose w)) = Z.to_nat 8192)
    by (rewrite <- Hxm; unfold nrows, mm; simpl; apply length_map).
  assert (Hcols : ncols (mm x (transpose w)) = Z.to_nat 4096)
    by (rewrite <- Hwn; reflexivity).
  apply guarded_ok. unfold backward_test_body. cbv zeta.
  change (total [2048; 2048; 2048; 2048]%Z) with 8192%Z.
  rewrite (snd_tbind _ _ [2048; 2048; 2048; 2048]%Z) by reflexivity.
  rewrite Hx, (snd_tbind _ _ x) by reflexivity.
  rewrite Hw, (snd_tbind _ _ w) by reflexivity.
  do 5 (rewrite (snd_tbind _ _ tt) by reflexivity).
  unfold exact_forward at 1.
  rewrite (snd_tbind _ _ (mm x (transpose w))) by reflexivity.
  rewrite (snd_tbind _ _ tt) by reflexivity.
  rewrite Hrows, Hcols, Hgy, (snd_tbind _ _ gy) by reflexivity.
  do 2 (rewrite (snd_tbind _ _ tt) by reflexivity).
  unfold agreeing_backward at 1. rewrite Hback.
  rewrite (snd_tbind _ _ (gx, gw)) by reflexivity.
  do 2 (rewrite (snd_tbind _ _ tt) by reflexivity).
  rewrite (snd_tbind _ _ (gx, gw)) by reflexivity.
  rewrite (snd_tbind _ _ tt) by reflexivity.
  rewrite (snd_tbind _ _ true)
    by (unfold compared; cbn [snd];
        apply (comparison_of_self_returns _ _ _ _ Hgxs); (lia || assumption)).
  rewrite (snd_tbind _ _ true)
    by (unfold compared; cbn [snd];
        apply (comparison_of_self_returns _ _ _ _ Hgws); (lia || assumption)).
  reflexivity.
Qed.

End BackwardTestOutcome.

(** * The further properties at concrete inputs *)

Lemma all_ones_has_shape (m k : nat) : has_shape (all_ones_qc m k) m k.
Proof.
  unfold has_shape, all_ones_qc, nrows, well_formed. simpl.
  rewrite repeat_length. repeat split.
  apply Forall_forall. intros r Hr. apply repeat_spec in Hr. subst r.
  apply repeat_length.
Qed.

Lemma qc_equals_itself (v : Qc) : eqb v v = true.
Proof.
  simpl. unfold Qc_eq_bool. destruct (Qc_eq_dec v v); [reflexivity|contradiction].
Qed.

Lemma qc_self_equal (t : tensor Qc) : self_equal t.
Proof.
  apply Forall_forall. intros v _. apply qc_equals_itself.
Qed.

Lemma ones_qc_clean (config_idx : nat) (c : config) :
  clean_draws ones_qc config_idx c.
Proof.
  destruct c as [[[G M] K] N]. unfold clean_draws.
  exists (all_ones_qc (N.to_nat M) (N.to_nat K)),
         (all_ones_qc (N.to_nat N) (N.to_nat K)),
         (all_ones_qc (N.to_nat M) (N.to_nat N)).
  repeat split; try reflexivity; try apply all_ones_has_shape;
    apply qc_self_equal.
Qed.

Lemma forward_result_shape_witness :
  has_shape (tz 3 [[1; 2; 3]; [3; 4; 7]; [5; 6; 11]]%Z) (nrows sample_x) (nrows sample_w).
Proof.
  apply (forward_result_shape sample_x sample_w sample_sizes). reflexivity.
Defined.

Lemma forward_depends_on_positive_total_witness :
  exists y,
    compute_reference_forward sample_x sample_w sample_sizes = Ok y
    /\ compute_reference_forward sample_x sample_w [-5; 3]%Z = Ok y.
Proof.
  apply (forward_depends_on_positive_total sample_x sample_w sample_sizes [-5; 3]%Z);
    reflexivity.
Defined.

Lemma backward_fails_in_forward_first_witness :
  compute_reference_backward sample_x wide_w sample_sizes unit_w
  = Raise (RuntimeError
             "mat1 and mat2 shapes cannot be multiplied (1x2 and 3x1)").
Proof.
  apply (backward_fails_in_forward_first sample_x wide_w unit_w sample_sizes).
  - discriminate.
  - constructor. lia.
Defined.

Lemma backward_rejects_grad_shape_witness :
  compute_reference_backward sample_x sample_w sample_sizes unit_w
  = Raise (RuntimeError "Mismatch in shape of grad_output and output").
Proof.
  apply (backward_rejects_grad_shape sample_x sample_w unit_w sample_sizes).
  - reflexivity.
  - discriminate.
Defined.

Lemma backward_needs_an_executed_group_witness :
  compute_reference_forward column_x unit_w [0; -1]%Z
  = Ok (zeros (nrows column_x) (nrows unit_w))
  /\ compute_reference_backward column_x unit_w [0; -1]%Z column_x
     = Raise (RuntimeError
                "element 0 of tensors does not require grad and does not have a grad_fn").
Proof.
  apply (backward_needs_an_executed_group column_x unit_w column_x [0; -1]%Z).
  - reflexivity.
  - repeat constructor; lia.
  - reflexivity.
Defined.

Lemma comparison_reflexive_witness :
  exists max_diff idx value,
    analyze_tensor_differences measured measured "t"
    = ([(INFO, LargestDifference "t" max_diff idx);
        (INFO, ValuesAt value value);
        (INFO, MatchesReference "t")],
       Ok true)
    /\ item_at measured idx = Ok value.
Proof.
  apply (comparison_reflexive measured "t" 2 2).
  - solve_shape.
  - lia.
  - lia.
  - repeat constructor.
Defined.

Lemma comparison_of_nothing_raises_witness :
  analyze_tensor_differences (tq 2 []) (tq 2 []) "t"
  = ([],
     Raise (IndexError
              "argmax(): Expected reduction dim to be specified for input.numel() == 0.")).
Proof.
  apply (comparison_of_nothing_raises (tq 2 []) (tq 2 []) "t" 0 2).
  - solve_shape.
  - solve_shape.
  - reflexivity.
Defined.

Lemma comparison_of_unrelated_shapes_raises_witness :
  analyze_tensor_differences measured (tq 3 [[1; 2; 3]; [4; 5; 6]]%Q) "t"
  = ([],
     Raise (RuntimeError "The size of tensor a must match the size of tensor b")).
Proof.
  apply (comparison_of_unrelated_shapes_raises measured
           (tq 3 [[1; 2; 3]; [4; 5; 6]]%Q) "t").
  right. repeat split; discriminate.
Defined.

Lemma even_sizes_partition_witness :
  length (even_sizes 8 4100) = N.to_nat 8
  /\ Forall (fun z => (Z.of_N (4100 / 8) <= z <= Z.of_N (4100 / 8) + 1)%Z)
            (even_sizes 8 4100)
  /\ non_negative (even_sizes 8 4100)
  /\ total (even_sizes 8 4100) = Z.of_N 4100.
Proof.
  apply (even_sizes_partition 8 4100). discriminate.
Defined.

Lemma agreeing_engine_passes_config_witness :
  snd (run_config exact_forward agreeing_backward ones_qc 0 (2, 3, 2, 2)%N)
  = Ok (0 + 1, true, true, true).
Proof.
  apply (agreeing_engine_passes_config ones_qc 0 (2, 3, 2, 2)%N).
  - unfold runnable. repeat split; (discriminate || reflexivity).
  - apply ones_qc_clean.
Defined.

Lemma agreeing_engine_passes_deepseek_sweep_witness :
  snd (test_multiple_deepseek_configs exact_forward agreeing_backward ones_qc)
  = Ok true.
Proof.
  apply (agreeing_engine_passes_deepseek_sweep ones_qc).
  intros i c _. apply ones_qc_clean.
Defined.

Lemma forward_test_passes_exact_engine_witness :
  snd (test_forward_pass exact_forward draw_ones_qc) = Ok true.
Proof.
  apply (forward_test_passes_exact_engine draw_ones_qc
           (all_ones_qc (Z.to_nat 2048) (Z.to_nat 7168))
           (all_ones_qc (Z.to_nat 4096) (Z.to_nat 7168))).
  - exact eq_refl.
  - apply all_ones_has_shape.
  - exact eq_refl.
  - apply all_ones_has_shape.
  - apply qc_self_equal.
Defined.

Lemma forward_test_catches_engine_failure_witness :
  test_forward_pass failing_forward draw_ones_qc
  = ([(INFO, TestSetup 1 2048 4096 7168);
      (INFO, GroupSizes [2048%Z]);
      (INFO, InputShape (shape (all_ones_qc (Z.to_nat 2048) (Z.to_nat 7168))));
      (INFO, WeightShape (shape (all_ones_qc (Z.to_nat 4096) (Z.to_nat 7168))));
      (INFO, RunningForward);
      (ERROR, TestFailed (OtherError "OutOfResources" "out of resource: shared memory"));
      (ERROR, TestTraceback (OtherError "OutOfResources" "out of resource: shared memory"))],
     Ok false).
Proof.
  apply (forward_test_catches_engine_failure draw_ones_qc failing_forward
           (all_ones_qc (Z.to_nat 2048) (Z.to_nat 7168))
           (all_ones_qc (Z.to_nat 4096) (Z.to_nat 7168))).
  - exact eq_refl.
  - exact eq_refl.
  - exact eq_refl.
Defined.

Lemma backward_test_passes_agreeing_engine_witness :
  snd (test_backward_pass exact_forward agreeing_backward draw_ones_qc) = Ok true.
Proof.
  apply (backward_test_passes_agreeing_engine draw_ones_qc
           (all_ones_qc (Z.to_nat 8192) (Z.to_nat 7168))
           (all_ones_qc (Z.to_nat 4096) (Z.to_nat 7168))
           (all_ones_qc (Z.to_nat 8192) (Z.to_nat 4096))).
  - reflexivity.
  - apply all_ones_has_shape.
  - reflexivity.
  - apply all_ones_has_shape.
  - reflexivity.
  - apply all_ones_has_shape.
  - intros gx gw _. split; apply qc_self_equal.
Defined.
